(** * 3d-models-library: STL loader, adaptive framing and preview cache

    A shallow embedding of the algorithmic core of the library:

    - [STLLoader]: the ASCII / binary STL parser (utils/stlLoader.ts);
    - [PreviewGenerator] and [Model3DViewer]: the two variants of the
      adaptive scale function and of the placement of the camera
      (utils/previewGenerator.ts and components/Modal3DViewer.tsx);
    - [UseModelPreview]: the preview hook with its localStorage cache and
      its effect on mount (hooks/useModelPreview.ts);
    - [Home] and [ModelFilterComponent]: the filter of the page and the
      selection of tags (app/page.tsx and components/ModelFilter.tsx);
    - [ModelCard] and [PreviewManager]: the arguments a card gives the hook,
      and the bulk generation and clearing of previews
      (components/ModelCard.tsx and components/PreviewManager.tsx).

    Conventions of the embedding.

    - An [ArrayBuffer] is a list of bytes.  A JavaScript string is a [string]:
      a sequence of code units below 256.  The text [TextDecoder] gives is
      held as the UTF-8 bytes it was decoded from: a byte below 0x80 is the
      code unit it decodes to, and the bytes from 0x80 on stand for the
      characters they encode (the replacement character, for the malformed
      ones), none of which is an ASCII character, and lower-casing them
      never completes the word [solid].  The parser looks at the text
      through line feeds, ASCII words and white space only.  White space is
      recognised on the encoded form
      ([JS.whitespace_length]): the first byte of such a character is never
      a continuation byte, so its bytes occur in the file exactly where the
      decoded text has the character.  The byte order mark [TextDecoder]
      drops at the start of the text is white space at the start of the
      first line, which [trim] drops as well.
    - Code that can throw returns a [result].
    - The numbers stored in a geometry are kept symbolic ([number]): the
      properties below are about how many there are and where they come from.
    - The scale functions, the sizes and the positions are embedded over the
      rationals, where the shape of the scale function is studied; the scale
      functions are embedded a second time over the JavaScript numbers
      ([JSNumber]: [NaN], the infinities and the finite values), for what
      they return on every number.
    - A finite number inside a JSON document is held as the text
      [Number::toString] gives it.
    - [localStorage] is a finite map from keys to the stored JSON documents.
      The hook reads and writes it without a quota; [clearCache] is embedded
      over a storage that the browser may deny, and the bulk generation over
      a storage with a quota.  React state is an explicit record, and a
      memoised callback is a function of the values its closure captured.
    - An asynchronous loop is run to its end without another task of the page
      writing to the store in between. *)

From Stdlib Require Import ZArith QArith Qabs Lia Lqa Ascii String List.
From Stdlib.Strings Require Import Byte.
From stdpp Require Import base gmap strings list sorting pretty.

(** ** Results of code that may throw *)

(** The values the modelled code throws or rejects with. *)
Inductive exception : Type :=
| RangeError                 (* a DataView accessor outside the view *)
| InvalidCharacterError      (* [btoa] on a code unit above 255 *)
| Error (message : string)   (* [new Error(message)], or another Error instance *)
| NotAnError.                (* a thrown value that is no instance of Error *)

(** The outcome of a call, or of a settled promise. *)
Inductive result (A : Type) : Type :=
| Ok (a : A)
| Throw (e : exception).
Arguments Ok {A} a.
Arguments Throw {A} e.

(** Sequencing stops at the first exception: [x ← r; k] is stdpp's notation
    for [mbind]. *)
#[global] Instance result_bind : MBind result := λ A B k r,
  match r with
  | Ok a => k a
  | Throw e => Throw e
  end.

(** ** JavaScript string primitives used by the sources *)

Module JS.

(** White space in the sense of [String.prototype.trim] and of the regular
    expression class [\s], on a text held as its UTF-8 bytes: the length in
    bytes of the white-space character that begins [s], and 0 when none
    does.  The characters are U+0009 to U+000D and U+0020, one byte each;
    U+00A0 (C2 A0); U+1680 (E1 9A 80); U+2000 to U+200A, U+2028, U+2029 and
    U+202F (E2 80 and a byte from 80 to 8A, A8, A9 or AF); U+205F (E2 81 9F);
    U+3000 (E3 80 80) and U+FEFF (EF BB BF). *)
Definition whitespace_length (s : string) : nat :=
  match s with
  | EmptyString => 0
  | String c0 s1 =>
      let b0 := N_of_ascii c0 in
      if (N.leb 9 b0 && N.leb b0 13) || N.eqb b0 32 then 1
      else
        match s1 with
        | EmptyString => 0
        | String c1 s2 =>
            let b1 := N_of_ascii c1 in
            if N.eqb b0 194 && N.eqb b1 160 then 2
            else
              match s2 with
              | EmptyString => 0
              | String c2 _ =>
                  let b2 := N_of_ascii c2 in
                  if (N.eqb b0 225 && N.eqb b1 154 && N.eqb b2 128)
                     || (N.eqb b0 226 && N.eqb b1 128
                         && ((N.leb 128 b2 && N.leb b2 138)
                             || N.eqb b2 168 || N.eqb b2 169 || N.eqb b2 175))
                     || (N.eqb b0 226 && N.eqb b1 129 && N.eqb b2 159)
                     || (N.eqb b0 227 && N.eqb b1 128 && N.eqb b2 128)
                     || (N.eqb b0 239 && N.eqb b1 187 && N.eqb b2 191)
                  then 3 else 0
              end
        end
  end.

(** For each byte of [s], whether it belongs to a white-space character;
    [pending] bytes of the character being read are still to come. *)
Fixpoint spaces_from (s : string) (pending : nat) : list bool :=
  match s with
  | EmptyString => []
  | String _ s' =>
      match pending with
      | S k => true :: spaces_from s' k
      | O =>
          match whitespace_length s with
          | S k => true :: spaces_from s' k
          | O => false :: spaces_from s' 0
          end
      end
  end.

Definition spaces (s : string) : list bool := spaces_from s 0.

Definition toLowerCase_char (c : ascii) : ascii :=
  let n := N_of_ascii c in
  if N.leb 65 n && N.leb n 90 then ascii_of_N (n + 32) else c.

Fixpoint toLowerCase (s : string) : string :=
  match s with
  | EmptyString => EmptyString
  | String c s' => String (toLowerCase_char c) (toLowerCase s')
  end.

(** [s.startsWith(p)] *)
Fixpoint startsWith (s p : string) {struct p} : bool :=
  match p with
  | EmptyString => true
  | String c p' =>
      match s with
      | EmptyString => false
      | String d s' => Ascii.eqb c d && startsWith s' p'
      end
  end.

(** [s.includes(p)] *)
Fixpoint includes (s p : string) : bool :=
  startsWith s p ||
  match s with
  | EmptyString => false
  | String _ s' => includes s' p
  end.

Fixpoint trimStart_from (s : string) (marks : list bool) : string :=
  match s, marks with
  | String _ s', true :: marks' => trimStart_from s' marks'
  | _, _ => s
  end.

Definition trimStart (s : string) : string := trimStart_from s (spaces s).

Fixpoint trimEnd_from (s : string) (marks : list bool) : string :=
  match s, marks with
  | String c s', space :: marks' =>
      match trimEnd_from s' marks' with
      | EmptyString => if space then EmptyString else String c EmptyString
      | r => String c r
      end
  | _, _ => EmptyString
  end.

Definition trimEnd (s : string) : string := trimEnd_from s (spaces s).

Definition trim (s : string) : string := trimEnd (trimStart s).

(** [s.split(sep)] for a one-character separator; [cur] is the piece being
    read. *)
Fixpoint split_char_from (sep : ascii) (s cur : string) : list string :=
  match s with
  | EmptyString => [cur]
  | String c s' =>
      if Ascii.eqb c sep then cur :: split_char_from sep s' EmptyString
      else split_char_from sep s' (cur +:+ String c EmptyString)
  end.

Definition split_char (sep : ascii) (s : string) : list string :=
  split_char_from sep s EmptyString.

(** [s.split(/\s+/)]: [in_sep] tells that the previous byte was part of a
    separator run. *)
Fixpoint split_ws_from (s : string) (marks : list bool) (cur : string)
    (in_sep : bool) : list string :=
  match s, marks with
  | String c s', space :: marks' =>
      if space then
        if in_sep then split_ws_from s' marks' EmptyString true
        else cur :: split_ws_from s' marks' EmptyString true
      else split_ws_from s' marks' (cur +:+ String c EmptyString) false
  | _, _ => [cur]
  end.

Definition split_ws (s : string) : list string :=
  split_ws_from s (spaces s) EmptyString false.

(** [toLowerCase] on a text of the page (a name, a tag, a search term), whose
    code units are Latin-1 characters: the letters A to Z and the accented
    capitals from 0xC0 to 0xDE, the multiplication sign 0xD7 apart, move up
    by 32. *)
Definition toLowerCase_latin1_char (c : ascii) : ascii :=
  let n := N_of_ascii c in
  if (N.leb 65 n && N.leb n 90)
     || (N.leb 192 n && N.leb n 222 && negb (N.eqb n 215))
  then ascii_of_N (n + 32) else c.

Fixpoint toLowerCase_latin1 (s : string) : string :=
  match s with
  | EmptyString => EmptyString
  | String c s' => String (toLowerCase_latin1_char c) (toLowerCase_latin1 s')
  end.

(** [array.includes(x)] on an array of strings. *)
Definition Array_includes (array : list string) (x : string) : bool :=
  existsb (String.eqb x) array.

(** [new Set(array)] read back with [Array.from]: the distinct elements, in
    the order of their first occurrence. *)
Definition Set_from (array : list string) : list string :=
  fold_left (λ set x, if Array_includes set x then set else set ++ [x]) array [].

(** [array.sort()] without a comparison function, on strings: ascending in
    the order of the code units. *)
Definition Array_sort (array : list string) : list string :=
  merge_sort String.le array.

End JS.

(** ** utils/stlLoader.ts *)

Module STLLoader.

(** A number held by a geometry: either the IEEE-754 single that
    [DataView.getFloat32] read, kept as its 32-bit pattern, or the value of
    [parseFloat] on a token of a line ([None]: the token is [undefined]). *)
Inductive number : Type :=
| Float32 (bits : Z)
| ParsedFloat (token : option string).

Record Vector3 : Type := mkVector3 { x : number; y : number; z : number }.

(** [THREE.BufferGeometry] with its two attributes, each the flat array
    handed to [Float32BufferAttribute(array, 3)]. *)
Record BufferGeometry : Type := mkGeometry {
  position : list number;
  normal : list number
}.

(** [BufferAttribute.count]: array length over item size 3.  The loader
    only ever pushes three numbers at a time, so the division is exact. *)
Definition count (array : list number) : nat := (length array / 3)%nat.

Definition ArrayBuffer : Type := list byte.

Definition TextDecoder_decode (data : ArrayBuffer) : string :=
  string_of_list_byte data.

Definition byteLength (data : ArrayBuffer) : Z := Z.of_nat (length data).

Definition byteAt (data : ArrayBuffer) (i : Z) : Z :=
  match data !! Z.to_nat i with
  | Some b => Z.of_N (Byte.to_N b)
  | None => 0
  end.

(** Little-endian 32-bit word at [offset]. *)
Definition word32 (data : ArrayBuffer) (offset : Z) : Z :=
  byteAt data offset
  + Z.shiftl (byteAt data (offset + 1)) 8
  + Z.shiftl (byteAt data (offset + 2)) 16
  + Z.shiftl (byteAt data (offset + 3)) 24.

(** [reader.getUint32(offset, true)]: throws a [RangeError] when the four
    bytes are not all inside the view. *)
Definition getUint32 (reader : ArrayBuffer) (offset : Z) : result Z :=
  if (offset + 4 <=? byteLength reader)%Z then Ok (word32 reader offset)
  else Throw RangeError.

(** [reader.getFloat32(offset, true)] *)
Definition getFloat32 (reader : ArrayBuffer) (offset : Z) : result number :=
  if (offset + 4 <=? byteLength reader)%Z then Ok (Float32 (word32 reader offset))
  else Throw RangeError.

Definition parseFloat (token : option string) : number := ParsedFloat token.

(** [isASCII] *)
Definition isASCII (data : ArrayBuffer) : bool :=
  let header := TextDecoder_decode (take 80 data) in
  JS.includes (JS.toLowerCase header) "solid".

(** State of the loop of [parseASCII]. *)
Record ascii_state : Type := mkAsciiState {
  vertices : list number;
  normals : list number;
  currentNormal : option Vector3
}.

(** One iteration of the loop over the lines. *)
Definition parseASCII_line (st : ascii_state) (raw : string) : ascii_state :=
  let line := JS.trim raw in
  if JS.startsWith line "facet normal" then
    let parts := JS.split_ws line in
    mkAsciiState (vertices st) (normals st)
      (Some (mkVector3 (parseFloat (parts !! 2%nat))
                       (parseFloat (parts !! 3%nat))
                       (parseFloat (parts !! 4%nat))))
  else if JS.startsWith line "vertex" then
    let parts := JS.split_ws line in
    let vertices' :=
      vertices st ++ [parseFloat (parts !! 1%nat);
                      parseFloat (parts !! 2%nat);
                      parseFloat (parts !! 3%nat)] in
    match currentNormal st with
    | Some n => mkAsciiState vertices' (normals st ++ [x n; y n; z n]) (Some n)
    | None => mkAsciiState vertices' (normals st) None
    end
  else st.

Definition parseASCII_lines (lines : list string) : ascii_state :=
  fold_left parseASCII_line lines (mkAsciiState [] [] None).

Definition parseASCII (data : string) : BufferGeometry :=
  let st := parseASCII_lines (JS.split_char "010"%char data) in
  mkGeometry (vertices st) (normals st).

(** The inner loop [for (j = 0; j < 3; j++)] of [parseBinary], run for the
    [todo] remaining values of [j]. *)
Fixpoint parseBinary_vertices (reader : ArrayBuffer) (todo : nat)
    (nx ny nz : number) (offset : Z) (vs ns : list number)
    : result (Z * list number * list number) :=
  match todo with
  | O => Ok (offset, vs, ns)
  | S todo' =>
      vx ← getFloat32 reader offset;
      vy ← getFloat32 reader (offset + 4);
      vz ← getFloat32 reader (offset + 8);
      parseBinary_vertices reader todo' nx ny nz (offset + 12)
        (vs ++ [vx; vy; vz]) (ns ++ [nx; ny; nz])
  end.

(** The outer loop [for (i = 0; i < faces; i++)], run for the [todo]
    remaining faces. *)
Fixpoint parseBinary_faces (reader : ArrayBuffer) (todo : nat)
    (offset : Z) (vs ns : list number) : result (list number * list number) :=
  match todo with
  | O => Ok (vs, ns)
  | S todo' =>
      nx ← getFloat32 reader offset;
      ny ← getFloat32 reader (offset + 4);
      nz ← getFloat32 reader (offset + 8);
      r ← parseBinary_vertices reader 3 nx ny nz (offset + 12) vs ns;
      let '(offset', vs', ns') := r in
      parseBinary_faces reader todo' (offset' + 2) vs' ns'
  end.

Definition parseBinary (reader : ArrayBuffer) : result BufferGeometry :=
  faces ← getUint32 reader 80;
  r ← parseBinary_faces reader (Z.to_nat faces) 84 [] [];
  Ok (mkGeometry (fst r) (snd r)).

(** [parseSTL] *)
Definition parseSTL (data : ArrayBuffer) : result BufferGeometry :=
  if isASCII data then Ok (parseASCII (TextDecoder_decode data))
  else parseBinary data.

End STLLoader.

(** ** The adaptive scale, over the rationals *)

Module Math.

Definition ltb (a b : Q) : bool := negb (Qle_bool b a).

(** [Math.max(a, b)] *)
Definition max (a b : Q) : Q := if Qle_bool a b then b else a.

End Math.

(** ** JavaScript numbers with their special values *)

Module JSNumber.

(** A JavaScript number: [NaN], one of the two infinities, or a finite
    value.  The finite values are taken as rationals with exact arithmetic,
    and the two zeros as one; the special values follow IEEE 754. *)
Inductive number : Type :=
| NaN
| Infinity (negative : bool)
| Finite (q : Q).

Definition negative (q : Q) : bool := negb (Qle_bool 0 q).

(** [a <= b]: false as soon as one side is [NaN]. *)
Definition leb (a b : number) : bool :=
  match a, b with
  | NaN, _ | _, NaN => false
  | Infinity true, _ => true
  | _, Infinity false => true
  | Infinity false, _ => false
  | _, Infinity true => false
  | Finite x, Finite y => Qle_bool x y
  end.

(** [a < b] *)
Definition ltb (a b : number) : bool :=
  match a, b with
  | NaN, _ | _, NaN => false
  | _, _ => negb (leb b a)
  end.

Definition opp (a : number) : number :=
  match a with
  | NaN => NaN
  | Infinity s => Infinity (negb s)
  | Finite x => Finite (- x)
  end.

(** [a + b] *)
Definition add (a b : number) : number :=
  match a, b with
  | NaN, _ | _, NaN => NaN
  | Infinity s, Infinity t => if Bool.eqb s t then Infinity s else NaN
  | Infinity s, Finite _ | Finite _, Infinity s => Infinity s
  | Finite x, Finite y => Finite (x + y)
  end.

(** [a - b] *)
Definition sub (a b : number) : number := add a (opp b).

(** [a * b] *)
Definition mul (a b : number) : number :=
  match a, b with
  | NaN, _ | _, NaN => NaN
  | Infinity s, Infinity t => Infinity (xorb s t)
  | Infinity s, Finite y | Finite y, Infinity s =>
      if Qeq_bool y 0 then NaN else Infinity (xorb s (negative y))
  | Finite x, Finite y => Finite (x * y)
  end.

(** [a / b] *)
Definition div (a b : number) : number :=
  match a, b with
  | NaN, _ | _, NaN => NaN
  | Infinity _, Infinity _ => NaN
  | Infinity s, Finite y => Infinity (xorb s (negative y))
  | Finite _, Infinity _ => Finite 0
  | Finite x, Finite y =>
      if Qeq_bool y 0
      then if Qeq_bool x 0 then NaN else Infinity (negative x)
      else Finite (x / y)
  end.

(** [Math.max(a, b)]: [NaN] as soon as one argument is. *)
Definition max (a b : number) : number :=
  match a, b with
  | NaN, _ | _, NaN => NaN
  | _, _ => if leb a b then b else a
  end.

End JSNumber.

(** ** The part of three.js the framing code uses, over the rationals *)

Module THREE.

Record Vector3 : Type := mkVector3 { x : Q; y : Q; z : Q }.

Definition multiplyScalar (v : Vector3) (s : Q) : Vector3 :=
  mkVector3 (x v * s) (y v * s) (z v * s).

(** The square of the distance to the origin. *)
Definition lengthSq (v : Vector3) : Q := x v * x v + y v * y v + z v * z v.

(** [PerspectiveCamera(fov, aspect, near, far)] and its position. *)
Record PerspectiveCamera : Type := mkCamera {
  fov : Q;
  aspect : Q;
  near : Q;
  far : Q;
  position : Vector3
}.

(** [camera.position.set(px, py, pz)] *)
Definition position_set (camera : PerspectiveCamera) (px py pz : Q) : PerspectiveCamera :=
  mkCamera (fov camera) (aspect camera) (near camera) (far camera) (mkVector3 px py pz).

End THREE.

(** ** utils/previewGenerator.ts *)

Module PreviewGenerator.

(** [calculateAdaptiveScale] of the still-preview generator. *)
Definition calculateAdaptiveScale (modelSize : Q) : Q :=
 (if Qle_bool modelSize 0 then 3.0
  else
    let scale :=
      if Math.ltb modelSize 0.1 then 50.0
      else if Math.ltb modelSize 1.0 then 15.0 + (1.0 - modelSize) * 35.0
      else if Math.ltb modelSize 10.0 then 3.0 + (10.0 - modelSize) / 9.0 * 12.0
      else if Math.ltb modelSize 100.0 then 1.0 + (100.0 - modelSize) / 90.0 * 2.0
      else Math.max 0.5 (100.0 / modelSize) in
    Math.max scale 0.5)%Q.

(** [calculateAdaptiveScale] on every number a caller can pass, the special
    values included. *)
Definition calculateAdaptiveScale_number (modelSize : JSNumber.number) : JSNumber.number :=
  let n := JSNumber.Finite in
 (if JSNumber.leb modelSize (n 0) then n 3.0
  else
    let scale :=
      if JSNumber.ltb modelSize (n 0.1) then n 50.0
      else if JSNumber.ltb modelSize (n 1.0) then
        JSNumber.add (n 15.0) (JSNumber.mul (JSNumber.sub (n 1.0) modelSize) (n 35.0))
      else if JSNumber.ltb modelSize (n 10.0) then
        JSNumber.add (n 3.0)
          (JSNumber.mul (JSNumber.div (JSNumber.sub (n 10.0) modelSize) (n 9.0)) (n 12.0))
      else if JSNumber.ltb modelSize (n 100.0) then
        JSNumber.add (n 1.0)
          (JSNumber.mul (JSNumber.div (JSNumber.sub (n 100.0) modelSize) (n 90.0)) (n 2.0))
      else JSNumber.max (n 0.5) (JSNumber.div (n 100.0) modelSize) in
    JSNumber.max scale (n 0.5))%Q.

(** What the generator needs from the browser: the file fetch of
    [FileLoader.load], and the WebGL rendering of a parsed geometry followed
    by [canvas.toDataURL]; either may fail. *)
Record browser : Type := mkBrowser {
  FileLoader_load : string → result STLLoader.ArrayBuffer;
  render_toDataURL : STLLoader.BufferGeometry → result string
}.

(** [STLLoader.loadSTL]: a failed fetch and a parser exception both reject. *)
Definition loadSTL (env : browser) (url : string) : result STLLoader.BufferGeometry :=
  data ← FileLoader_load env url;
  STLLoader.parseSTL data.

(** [generatePreview]: load, render, read the canvas back and validate. *)
Definition generatePreview (env : browser) (modelUrl : string) : result string :=
  geometry ← loadSTL env modelUrl;
  dataURL ← render_toDataURL env geometry;
  if (String.length dataURL =? 0)%nat || (String.length dataURL <? 100)%nat
  then Throw (Error "Generated preview is invalid")
  else Ok dataURL.

(** [generateModelPreview]: a fresh generator, disposed of in [finally]. *)
Definition generateModelPreview (env : browser) (modelUrl : string) : result string :=
  generatePreview env modelUrl.

(** The camera the constructor creates. *)
Definition newCamera (aspect : Q) : THREE.PerspectiveCamera :=
  THREE.mkCamera 60 aspect 0.1 1000 (THREE.mkVector3 0 0 5).

(** [positionCameraForBestView] *)
Definition positionCameraForBestView (camera : THREE.PerspectiveCamera)
    (modelSize : THREE.Vector3) (scale : Q) (customPosition : option THREE.Vector3)
    : THREE.PerspectiveCamera :=
  match customPosition with
  | Some custom =>
      THREE.position_set camera (THREE.x custom) (THREE.y custom) (THREE.z custom)
  | None =>
      let scaledSize := THREE.multiplyScalar modelSize scale in
      let maxScaledDimension :=
        Math.max (Math.max (THREE.x scaledSize) (THREE.y scaledSize))
          (THREE.z scaledSize) in
      let distance := Math.max (maxScaledDimension * 1.5) 4 in
      THREE.position_set camera (distance * 0.7) (distance * 0.5) (distance * 1.0)
  end%Q.

(** The framing steps of [generatePreview], for a geometry whose bounding box
    has the size [size]: the scale applied to the geometry, and the camera. *)
Definition frameModel (camera : THREE.PerspectiveCamera) (size : THREE.Vector3)
    (cameraPosition : option THREE.Vector3) : Q * THREE.PerspectiveCamera :=
  let maxSize := Math.max (Math.max (THREE.x size) (THREE.y size)) (THREE.z size) in
  let scale := calculateAdaptiveScale maxSize in
  (scale, positionCameraForBestView camera size scale cameraPosition).

End PreviewGenerator.

(** ** components/Modal3DViewer.tsx *)

Module Model3DViewer.

(** [calculateAdaptiveScale] of the interactive viewer. *)
Definition calculateAdaptiveScale (modelSize : Q) : Q :=
 (if Qle_bool modelSize 0 then 2.0
  else
    let scale :=
      if Math.ltb modelSize 0.1 then 30.0
      else if Math.ltb modelSize 1.0 then 10.0 + (1.0 - modelSize) * 20.0
      else if Math.ltb modelSize 10.0 then 2.0 + (10.0 - modelSize) / 9.0 * 8.0
      else if Math.ltb modelSize 100.0 then 0.8 + (100.0 - modelSize) / 90.0 * 1.2
      else Math.max 0.3 (80.0 / modelSize) in
    Math.max scale 0.3)%Q.

(** [calculateAdaptiveScale] on every number a caller can pass, the special
    values included. *)
Definition calculateAdaptiveScale_number (modelSize : JSNumber.number) : JSNumber.number :=
  let n := JSNumber.Finite in
 (if JSNumber.leb modelSize (n 0) then n 2.0
  else
    let scale :=
      if JSNumber.ltb modelSize (n 0.1) then n 30.0
      else if JSNumber.ltb modelSize (n 1.0) then
        JSNumber.add (n 10.0) (JSNumber.mul (JSNumber.sub (n 1.0) modelSize) (n 20.0))
      else if JSNumber.ltb modelSize (n 10.0) then
        JSNumber.add (n 2.0)
          (JSNumber.mul (JSNumber.div (JSNumber.sub (n 10.0) modelSize) (n 9.0)) (n 8.0))
      else if JSNumber.ltb modelSize (n 100.0) then
        JSNumber.add (n 0.8)
          (JSNumber.mul (JSNumber.div (JSNumber.sub (n 100.0) modelSize) (n 90.0)) (n 1.2))
      else JSNumber.max (n 0.3) (JSNumber.div (n 80.0) modelSize) in
    JSNumber.max scale (n 0.3))%Q.

(** The camera [initScene] creates. *)
Definition newCamera (aspect : Q) : THREE.PerspectiveCamera :=
  THREE.mkCamera 75 aspect 0.1 1000 (THREE.mkVector3 0 0 10).

(** [positionCameraForModel]: nothing without a camera. *)
Definition positionCameraForModel (cameraRef : option THREE.PerspectiveCamera)
    (modelSize : THREE.Vector3) (scale : Q) : option THREE.PerspectiveCamera :=
  match cameraRef with
  | None => None
  | Some camera =>
      let scaledSize := THREE.multiplyScalar modelSize scale in
      let maxScaledDimension :=
        Math.max (Math.max (THREE.x scaledSize) (THREE.y scaledSize))
          (THREE.z scaledSize) in
      let distance := Math.max (maxScaledDimension * 1) 8 in
      Some (THREE.position_set camera (distance * 0.5) (distance * 0.3) distance)
  end%Q.

(** The framing steps of [loadModel]. *)
Definition frameModel (cameraRef : option THREE.PerspectiveCamera) (size : THREE.Vector3)
    : Q * option THREE.PerspectiveCamera :=
  let maxSize := Math.max (Math.max (THREE.x size) (THREE.y size)) (THREE.z size) in
  let scale := calculateAdaptiveScale maxSize in
  (scale, positionCameraForModel cameraRef size scale).

End Model3DViewer.

(** ** JSON documents and [JSON.stringify] *)

Module JSON.

#[local] Set Warnings "-register-all".

(** The values the hook serialises.  An object keeps its properties in the
    order [JSON.stringify] enumerates them: the order of insertion, for
    names that are no array indices; a property whose value is [undefined] is
    left out by [JSON.stringify] and is not represented.  A finite number is
    held as the text [Number::toString] gives it ("300", "0.4", "1e+21"),
    which determines the number, the sign of zero apart; [NaN] and the two
    infinities are the numbers that are not finite. *)
Inductive value : Type :=
| Null
| Number (text : string)
| NaN
| Infinity (negative : bool)
| Str (s : string)
| Object (properties : list (string * value)).

(** The integer [n] as a number: integers print in plain decimal (below
    10^21 in absolute value). *)
Definition integer (n : Z) : value := Number (pretty n).

Definition hex_digit (n : N) : ascii :=
  match n with
  | 0 => "0" | 1 => "1" | 2 => "2" | 3 => "3" | 4 => "4" | 5 => "5"
  | 6 => "6" | 7 => "7" | 8 => "8" | 9 => "9" | 10 => "a" | 11 => "b"
  | 12 => "c" | 13 => "d" | 14 => "e" | _ => "f"
  end%char%N.

(** The double quote, code unit 34. *)
Definition dquote : ascii := "034"%char.

(** The escape of one code unit inside a JSON string literal. *)
Definition escape_char (c : ascii) : string :=
  let n := N_of_ascii c in
  if N.eqb n 8 then "\b"
  else if N.eqb n 9 then "\t"
  else if N.eqb n 10 then "\n"
  else if N.eqb n 12 then "\f"
  else if N.eqb n 13 then "\r"
  else if N.eqb n 34 then String "\" (String dquote EmptyString)
  else if N.eqb n 92 then "\\"
  else if N.ltb n 32 then
    "\u00" +:+ String (hex_digit (n / 16)) (String (hex_digit (n mod 16)) EmptyString)
  else String c EmptyString.

Fixpoint escape (s : string) : string :=
  match s with
  | EmptyString => EmptyString
  | String c s' => escape_char c +:+ escape s'
  end.

(** [QuoteJSONString] *)
Definition quote (s : string) : string :=
  String dquote (escape s +:+ String dquote EmptyString).

(** [JSON.stringify]: a number that is not finite is written as [null]. *)
Fixpoint stringify (v : value) : string :=
  match v with
  | Null => "null"
  | Number text => text
  | NaN | Infinity _ => "null"
  | Str s => quote s
  | Object properties =>
      let fix members (first : bool) (ps : list (string * value)) : string :=
        match ps with
        | [] => EmptyString
        | (k, v') :: ps' =>
            (if first then EmptyString else ",")
            +:+ quote k +:+ ":" +:+ stringify v' +:+ members false ps'
        end in
      "{" +:+ members true properties +:+ "}"
  end.

(** The members of an object as [stringify] writes them, comma-separated
    after the first. *)
Fixpoint members (first : bool) (ps : list (string * value)) : string :=
  match ps with
  | [] => EmptyString
  | (k, v) :: ps' =>
      (if first then EmptyString else ",")
      +:+ quote k +:+ ":" +:+ stringify v +:+ members false ps'
  end.

End JSON.

(** ** hooks/useModelPreview.ts *)

Module UseModelPreview.

Definition PreviewOptions : Type := list (string * JSON.value).

Definition CACHE_PREFIX : string := "model_preview_".
Definition CACHE_EXPIRY_DAYS : Z := 7.

(** The arguments of [useModelPreview] that the callbacks close over. *)
Record props : Type := mkProps {
  modelUrl : string;
  cacheKey : option string;
  previewOptions : option PreviewOptions
}.

(** The three [useState] cells. *)
Record state : Type := mkState {
  previewUrl : option string;
  isGenerating : bool;
  error : option string
}.

(** The document [saveToCache] stores, as [JSON.parse] gives it back. *)
Record cacheData : Type := mkCacheData {
  dataUrl : string;
  timestamp : Z;
  cachedModelUrl : string;
  options : option PreviewOptions
}.

Definition base64_alphabet : string :=
  "ABCDEFGHIJKLMNOPQRSTUVWXYZabcdefghijklmnopqrstuvwxyz0123456789+/".

Definition base64_digit (n : N) : ascii :=
  match String.get (N.to_nat n) base64_alphabet with
  | Some c => c
  | None => "="%char
  end.

Fixpoint base64 (s : string) : string :=
  match s with
  | EmptyString => EmptyString
  | String a EmptyString =>
      let x := N_of_ascii a in
      String (base64_digit (x / 4))
        (String (base64_digit (x mod 4 * 16)) "==")
  | String a (String b EmptyString) =>
      let x := N_of_ascii a in
      let y := N_of_ascii b in
      String (base64_digit (x / 4))
        (String (base64_digit (x mod 4 * 16 + y / 16))
           (String (base64_digit (y mod 16 * 4)) "="))
  | String a (String b (String c rest)) =>
      let x := N_of_ascii a in
      let y := N_of_ascii b in
      let z := N_of_ascii c in
      String (base64_digit (x / 4))
        (String (base64_digit (x mod 4 * 16 + y / 16))
           (String (base64_digit (y mod 16 * 4 + z / 64))
              (String (base64_digit (z mod 64)) (base64 rest))))
  end.

Definition latin1 (s : string) : bool :=
  forallb (λ c, N.ltb (N_of_ascii c) 256) (list_ascii_of_string s).

(** [btoa]: throws on a code unit above 255. *)
Definition btoa (s : string) : result string :=
  if latin1 s then Ok (base64 s) else Throw InvalidCharacterError.

Definition HEX_digit (n : N) : ascii :=
  match n with
  | 0 => "0" | 1 => "1" | 2 => "2" | 3 => "3" | 4 => "4" | 5 => "5"
  | 6 => "6" | 7 => "7" | 8 => "8" | 9 => "9" | 10 => "A" | 11 => "B"
  | 12 => "C" | 13 => "D" | 14 => "E" | _ => "F"
  end%char%N.

Definition percent (n : N) : string :=
  String "%" (String (HEX_digit (n / 16)) (String (HEX_digit (n mod 16)) EmptyString)).

Definition uri_unreserved (c : ascii) : bool :=
  let n := N_of_ascii c in
  (N.leb 65 n && N.leb n 90) || (N.leb 97 n && N.leb n 122)
  || (N.leb 48 n && N.leb n 57)
  || JS.includes "-_.!~*'()" (String c EmptyString).

(** [encodeURIComponent] on code units below 256: an unreserved character
    stands for itself, any other is percent-encoded from its UTF-8 bytes. *)
Fixpoint encodeURIComponent (s : string) : string :=
  match s with
  | EmptyString => EmptyString
  | String c s' =>
      let n := N_of_ascii c in
      (if uri_unreserved c then String c EmptyString
       else if N.ltb n 128 then percent n
       else percent (192 + n / 64) +:+ percent (128 + n mod 64))
      +:+ encodeURIComponent s'
  end.

(** [getCacheKey] *)
Definition keyData (p : props) : JSON.value :=
  JSON.Object
    ([("url", JSON.Str (modelUrl p))]
     ++ match cacheKey p with
        | Some custom => [("custom", JSON.Str custom)]
        | None => []
        end
     ++ [("options",
          match previewOptions p with
          | Some o => JSON.Str (JSON.stringify (JSON.Object o))
          | None => JSON.Null
          end)]).

Definition getCacheKey (p : props) : string :=
  let keyString := JSON.stringify (keyData p) in
  match btoa keyString with
  | Ok encoded => CACHE_PREFIX +:+ encoded
  | Throw _ => CACHE_PREFIX +:+ encodeURIComponent keyString
  end.

(** [isCacheValid], at time [now = Date.now()].  The argument is a parsed
    document, so [!cacheData] is false; a zero timestamp and an empty data
    URL are falsy. *)
Definition isCacheValid (now : Z) (c : cacheData) : bool :=
  if (timestamp c =? 0)%Z || (String.length (dataUrl c) =? 0)%nat then false
  else
    let cacheAge := (now - timestamp c)%Z in
    let maxAge := (CACHE_EXPIRY_DAYS * 24 * 60 * 60 * 1000)%Z in
    (cacheAge <? maxAge)%Z.

(** [loadFromCache]: the value returned and the store it leaves. *)
Definition loadFromCache (p : props) (now : Z) (localStorage : gmap string cacheData)
    : option string * gmap string cacheData :=
  let cacheKeyValue := getCacheKey p in
  match localStorage !! cacheKeyValue with
  | Some c =>
      if isCacheValid now c then (Some (dataUrl c), localStorage)
      else (None, delete cacheKeyValue localStorage)
  | None => (None, localStorage)
  end.

(** [saveToCache] *)
Definition saveToCache (p : props) (url : string) (now : Z)
    (localStorage : gmap string cacheData) : gmap string cacheData :=
  let c := mkCacheData url now (modelUrl p) (previewOptions p) in
  <[getCacheKey p := c]> localStorage.

(** [localStorage.removeItem(key)] on the storage as the page reaches it:
    the entries it holds, or [None] when the browser denies the access to
    the storage, and every call on it throws.  The result is the storage
    left, or [None] when the call throws. *)
Definition removeItem (key : string) (storage : option (gmap string cacheData))
    : option (option (gmap string cacheData)) :=
  match storage with
  | Some entries => Some (Some (delete key entries))
  | None => None
  end.

(** [clearCache]: [setPreviewUrl(null)] follows [removeItem] inside the
    [try], and the [catch] only logs. *)
Definition clearCache (p : props) (st : state) (storage : option (gmap string cacheData))
    : state * option (gmap string cacheData) :=
  let cacheKeyValue := getCacheKey p in
  match removeItem cacheKeyValue storage with
  | Some storage' => (mkState None (isGenerating st) (error st), storage')
  | None => (st, storage)
  end.

(** What a hook instance acts on: its React state, the shared store, and
    the render sessions started so far (one per call of
    [generateModelPreview], each with its own WebGL renderer). *)
Record world : Type := mkWorld {
  hook : state;
  localStorage : gmap string cacheData;
  sessions : nat
}.

(** [generatePreview] up to its [await].  [captured] is the value of
    [isGenerating] in the closure of the callback: the constant bound by the
    render that created it.  The result tells whether a render session was
    started. *)
Definition generatePreview_call (captured : bool) (p : props) (w : world) : world * bool :=
  if captured || (String.length (modelUrl p) =? 0)%nat then (w, false)
  else
    (mkWorld (mkState (previewUrl (hook w)) true None) (localStorage w) (S (sessions w)),
     true).

(** [err instanceof Error ? err.message : 'Failed to generate preview'];
    the message of an engine error is the engine's text. *)
Definition errorMessage (e : exception) : string :=
  match e with
  | Error message => message
  | RangeError => "Offset is outside the bounds of the DataView"
  | InvalidCharacterError => "The string to be encoded contains characters outside of the Latin1 range."
  | NotAnError => "Failed to generate preview"
  end.

(** The basic validation of the hook, throwing into its own [catch]. *)
Definition validated (outcome : result string) : result string :=
  dataUrl ← outcome;
  if negb (String.length dataUrl =? 0)%nat && (100 <? String.length dataUrl)%nat
  then Ok dataUrl
  else Throw (Error "Generated preview appears to be invalid or too short").

(** [generatePreview] from the point where the awaited promise settles with
    [outcome], at time [now]. *)
Definition generatePreview_settle (p : props) (outcome : result string) (now : Z)
    (w : world) : world :=
  match validated outcome with
  | Ok dataUrl =>
      mkWorld (mkState (Some dataUrl) false (error (hook w)))
        (saveToCache p dataUrl now (localStorage w)) (sessions w)
  | Throw err =>
      mkWorld (mkState (previewUrl (hook w)) false (Some (errorMessage err)))
        (localStorage w) (sessions w)
  end.

(** The callback a render creates: [useCallback] re-creates it with the
    state of that render. *)
Definition render_generatePreview (st : state) : props → world → world * bool :=
  generatePreview_call (isGenerating st).

(** The effect that loads on mount, at time [now]; it runs again after every
    render that gives it a new [loadFromCache] or [generatePreview].
    [captured] is as in [generatePreview_call], for the [generatePreview] the
    effect closes over.  A cached preview is published when it is truthy:
    not [null] and not the empty string. *)
Definition mountEffect (generateOnMount captured : bool) (p : props) (now : Z)
    (w : world) : world * bool :=
  if (String.length (modelUrl p) =? 0)%nat then (w, false)
  else
    let '(cachedPreview, store) := loadFromCache p now (localStorage w) in
    let w' := mkWorld (hook w) store (sessions w) in
    match cachedPreview with
    | Some url =>
        if negb (String.length url =? 0)%nat then
          (mkWorld (mkState (Some url) (isGenerating (hook w)) (error (hook w)))
             store (sessions w), false)
        else if generateOnMount then generatePreview_call captured p w'
        else (w', false)
    | None =>
        if generateOnMount then generatePreview_call captured p w'
        else (w', false)
    end.

(** One turn of a mounted hook: the effect of the render that shows the
    state [hook w], then, if the effect started a request, the settling of
    that request with the outcome of [generateModelPreview]. *)
Definition turn (env : PreviewGenerator.browser) (generateOnMount : bool) (p : props)
    (now : Z) (w : world) : world :=
  let '(w', started) := mountEffect generateOnMount (isGenerating (hook w)) p now w in
  if started
  then generatePreview_settle p
         (PreviewGenerator.generateModelPreview env (modelUrl p)) now w'
  else w'.

(** [n] turns in a row, turn [i] at time [clock i]. *)
Fixpoint turns (env : PreviewGenerator.browser) (generateOnMount : bool) (p : props)
    (clock : nat → Z) (n : nat) (w : world) : world :=
  match n with
  | O => w
  | S n' => turn env generateOnMount p (clock n') (turns env generateOnMount p clock n' w)
  end.

End UseModelPreview.

(** ** Notions used to state the properties *)

Module Props.

Import STLLoader UseModelPreview.

(** How the loop of [parseASCII] treats a line. *)
Inductive line_kind : Type :=
| FacetNormal
| Vertex
| Skipped.

#[global] Instance line_kind_eq_dec : EqDecision line_kind.
Proof. solve_decision. Defined.

Definition classify (raw : string) : line_kind :=
  let line := JS.trim raw in
  if JS.startsWith line "facet normal" then FacetNormal
  else if JS.startsWith line "vertex" then Vertex
  else Skipped.

(** The kinds of the lines of an ASCII input, in order. *)
Definition line_kinds (data : ArrayBuffer) : list line_kind :=
  map classify (JS.split_char "010"%char (TextDecoder_decode data)).

Definition vertex_lines (ks : list line_kind) : nat :=
  length (filter (λ k, k = Vertex) ks).

(** The lines from the first [facet normal] line on. *)
Fixpoint from_first_facet (ks : list line_kind) : list line_kind :=
  match ks with
  | [] => []
  | FacetNormal :: _ => ks
  | _ :: ks' => from_first_facet ks'
  end.

(** The lines whose vertex gets a normal when the loop is in state [st]:
    all of them once a normal is set, those from the first [facet normal]
    line on before. *)
Definition lit (st : ascii_state) (ks : list line_kind) : list line_kind :=
  match currentNormal st with
  | Some _ => ks
  | None => from_first_facet ks
  end.

(** [n] facets, each a [facet normal] line followed by three [vertex]
    lines, once the skipped lines are taken out. *)
Definition facets_of_three (n : nat) (ks : list line_kind) : Prop :=
  filter (λ k, k ≠ Skipped) ks
  = mjoin (replicate n [FacetNormal; Vertex; Vertex; Vertex]).

(** The triangle count in the header of a binary input. *)
Definition declared_faces (data : ArrayBuffer) : Z := word32 data 80.

(** A binary input that stops before the header ends, or before the last
    vertex of the last declared record ends. *)
Definition binary_truncated (data : ArrayBuffer) : Prop :=
  (byteLength data < 84
   ∨ (1 ≤ declared_faces data
      ∧ byteLength data < 82 + 50 * declared_faces data))%Z.

#[global] Instance binary_truncated_dec data : Decision (binary_truncated data).
Proof. unfold binary_truncated. apply _. Defined.

(** Sample inputs. *)
Definition bytes_of (s : string) : ArrayBuffer := list_byte_of_string s.

Fixpoint unlines (lines : list string) : string :=
  match lines with
  | [] => EmptyString
  | [l] => l
  | l :: ls => l +:+ String "010"%char (unlines ls)
  end.

(** The one-facet ASCII file of scenario B. *)
Definition one_facet_ascii : ArrayBuffer :=
  bytes_of (unlines ["solid x"; "facet normal 0 0 1"; " outer loop";
                     "  vertex 0 0 0"; "  vertex 1 0 0"; "  vertex 0 1 0";
                     " endloop"; "endfacet"; "endsolid x"]).

(** The no-break space U+00A0, as UTF-8 encodes it. *)
Definition no_break_space : string :=
  String (ascii_of_N 194) (String (ascii_of_N 160) EmptyString).

(** An ASCII file whose [vertex] line is indented, and its first two tokens
    separated, by no-break spaces. *)
Definition no_break_vertex : ArrayBuffer :=
  bytes_of (unlines ["solid";
                     no_break_space +:+ "vertex" +:+ no_break_space +:+ "1 2 3"]).

(** An ASCII file whose only [vertex] line comes before any normal. *)
Definition vertex_before_normal : ArrayBuffer :=
  bytes_of (unlines ["solid"; "vertex 0 0 0"]).

(** The 12-byte file of scenario A. *)
Definition twelve_bytes : ArrayBuffer := replicate 12 x00.

(** A binary file declaring one triangle, cut after the last vertex: the
    two attribute bytes are missing. *)
Definition without_attribute_bytes : ArrayBuffer :=
  replicate 80 x00 ++ [x01; x00; x00; x00] ++ replicate 48 x00.

(** A preview request that fails at one of its stages: the fetch, the parse,
    the render, or the validation of the image (the generator refuses a data
    URL shorter than 100 characters, the hook one of at most 100). *)
Inductive preview_failure (env : PreviewGenerator.browser) (url : string) : Prop :=
| fetch_fails (e : exception) :
    PreviewGenerator.FileLoader_load env url = Throw e →
    preview_failure env url
| parse_fails (data : ArrayBuffer) (e : exception) :
    PreviewGenerator.FileLoader_load env url = Ok data →
    parseSTL data = Throw e →
    preview_failure env url
| render_fails (data : ArrayBuffer) (g : BufferGeometry) (e : exception) :
    PreviewGenerator.FileLoader_load env url = Ok data →
    parseSTL data = Ok g →
    PreviewGenerator.render_toDataURL env g = Throw e →
    preview_failure env url
| validation_fails (data : ArrayBuffer) (g : BufferGeometry) (dataURL : string) :
    PreviewGenerator.FileLoader_load env url = Ok data →
    parseSTL data = Ok g →
    PreviewGenerator.render_toDataURL env g = Ok dataURL →
    (String.length dataURL ≤ 100)%nat →
    preview_failure env url.

(** The characters of the text of a finite number: the digits, the two
    signs, the point and the exponent mark. *)
Definition num_char (c : ascii) : bool :=
  let n := N_of_ascii c in
  (N.leb 48 n && N.leb n 57) || N.eqb n 45 || N.eqb n 43 || N.eqb n 46 || N.eqb n 101.

Fixpoint all_num (s : string) : bool :=
  match s with
  | EmptyString => true
  | String c s' => num_char c && all_num s'
  end.

(** The text of a finite number is not empty and made of those characters. *)
Definition numeral (text : string) : bool :=
  negb (String.length text =? 0)%nat && all_num text.



(** A document as [JSON.stringify] writes it: [null] in the place of every
    number that is not finite. *)
Fixpoint written (v : JSON.value) : JSON.value :=
  match v with
  | JSON.NaN | JSON.Infinity _ => JSON.Null
  | JSON.Object properties => JSON.Object (map (λ kv, (kv.1, written kv.2)) properties)
  | _ => v
  end.







(** Every code unit below 256, and every base-64 digit value. *)
Definition all_ascii : list ascii := map ascii_of_nat (seq 0 256).



(** The time to live of a cache entry, in milliseconds. *)
Definition seven_days : Z := 7 * 24 * 60 * 60 * 1000.

(** Continuity of a rational function at a point, in epsilon-delta form. *)
Definition continuous_at (f : Q → Q) (b : Q) : Prop :=
  ∀ ε : Q, (0 < ε)%Q →
    ∃ δ : Q, (0 < δ)%Q ∧ ∀ x : Q, (Qabs (x - b) < δ)%Q → (Qabs (f x - f b) < ε)%Q.

(** A function that never increases over the positive sizes. *)
Definition non_increasing (f : Q → Q) : Prop :=
  ∀ x y : Q, (0 < x)%Q → (x <= y)%Q → (f y <= f x)%Q.

(** The white-space characters of the language, by code point: those of
    [String.prototype.trim] and of the class [\s]. *)
Definition white_space_code_points : list N :=
  [9; 10; 11; 12; 13; 32; 0xA0; 0x1680; 0x2000; 0x2001; 0x2002; 0x2003; 0x2004;
   0x2005; 0x2006; 0x2007; 0x2008; 0x2009; 0x200A; 0x2028; 0x2029; 0x202F;
   0x205F; 0x3000; 0xFEFF]%N.

Definition is_white_space (cp : N) : bool := existsb (N.eqb cp) white_space_code_points.

(** The UTF-8 encoding of a code point, and of a text. *)
Definition code_unit (n : N) : string := String (ascii_of_N n) EmptyString.

Definition utf8 (cp : N) : string :=
  (if cp <? 0x80 then code_unit cp
   else if cp <? 0x800 then code_unit (0xC0 + cp / 64) +:+ code_unit (0x80 + cp mod 64)
   else if cp <? 0x10000 then
     code_unit (0xE0 + cp / 4096) +:+ code_unit (0x80 + cp / 64 mod 64)
     +:+ code_unit (0x80 + cp mod 64)
   else
     code_unit (0xF0 + cp / 262144) +:+ code_unit (0x80 + cp / 4096 mod 64)
     +:+ code_unit (0x80 + cp / 64 mod 64) +:+ code_unit (0x80 + cp mod 64))%N.

Fixpoint utf8_text (cps : list N) : string :=
  match cps with
  | [] => EmptyString
  | cp :: cps' => utf8 cp +:+ utf8_text cps'
  end.

(** For each byte of the encoding of a text, whether its character is white
    space. *)
Definition white_space_marks (cps : list N) : list bool :=
  flat_map (λ cp, replicate (String.length (utf8 cp)) (is_white_space cp)) cps.

(** A byte that begins no white-space character. *)
Definition inert (c : ascii) : bool :=
  let b := N_of_ascii c in
  negb ((N.leb 9 b && N.leb b 13) || N.eqb b 32 || N.eqb b 194 || N.eqb b 225
        || N.eqb b 226 || N.eqb b 227 || N.eqb b 239).

(** An encoded character that [JS.whitespace_length] reads without looking
    at what follows it. *)
Definition self_contained (s : string) : bool :=
  match s with
  | EmptyString => false
  | String c0 EmptyString =>
      let b := N_of_ascii c0 in
      negb (N.eqb b 194 || N.eqb b 225 || N.eqb b 226 || N.eqb b 227 || N.eqb b 239)
  | String c0 (String _ EmptyString) =>
      let b := N_of_ascii c0 in
      negb (N.eqb b 225 || N.eqb b 226 || N.eqb b 227 || N.eqb b 239)
  | _ => true
  end.

(** The check made on every code point: [JS.whitespace_length] gives the
    length of the encoding of a white-space character and 0 on any other,
    none of whose later bytes begins white space. *)
Definition encoded_well (cp : N) : bool :=
  let s := utf8 cp in
  self_contained s
  && if is_white_space cp then (JS.whitespace_length s =? String.length s)%nat
     else (JS.whitespace_length s =? 0)%nat
          && match s with
             | String _ tail => forallb inert (list_ascii_of_string tail)
             | EmptyString => false
             end.

(** [P] on every number of [bits] binary digits after those of [base]. *)
Fixpoint forall_below (bits : nat) (P : N → bool) (base : N) : bool :=
  match bits with
  | O => P base
  | S bits' => forall_below bits' P (2 * base) && forall_below bits' P (2 * base + 1)
  end.

End Props.

(** ** The layout of the two STL formats *)

Module BinaryLayout.

Import STLLoader.

(** The single-precision number whose four bytes start at [offset]. *)
Definition float_at (data : ArrayBuffer) (offset : Z) : number :=
  Float32 (word32 data offset).

(** Three consecutive numbers, twelve bytes. *)
Definition triple_at (data : ArrayBuffer) (offset : Z) : list number :=
  [float_at data offset; float_at data (offset + 4); float_at data (offset + 8)].

(** The 50-byte record of a triangle at [offset]: the normal, the three
    vertices, and two attribute bytes. *)
Definition record_positions (data : ArrayBuffer) (offset : Z) : list number :=
  triple_at data (offset + 12) ++ triple_at data (offset + 24)
  ++ triple_at data (offset + 36).

(** The normal of the record, once for each of its three vertices. *)
Definition record_normals (data : ArrayBuffer) (offset : Z) : list number :=
  triple_at data offset ++ triple_at data offset ++ triple_at data offset.

(** The [n] records from [offset] on. *)
Fixpoint positions_from (data : ArrayBuffer) (offset : Z) (n : nat) : list number :=
  match n with
  | O => []
  | S n' => record_positions data offset ++ positions_from data (offset + 50) n'
  end.

Fixpoint normals_from (data : ArrayBuffer) (offset : Z) (n : nat) : list number :=
  match n with
  | O => []
  | S n' => record_normals data offset ++ normals_from data (offset + 50) n'
  end.

(** The bytes that carry data: the triangle count, and the first 48 bytes of
    each record. *)
Definition payload_byte (i : Z) : Prop :=
  (80 ≤ i < 84 ∨ (84 ≤ i ∧ (i - 84) mod 50 < 48))%Z.

(** A binary file of one triangle, with a given filler for the header and
    for the attribute bytes. *)
Definition one_triangle (header attribute : byte) : ArrayBuffer :=
  replicate 80 header ++ [x01; x00; x00; x00] ++ replicate 48 x3f
  ++ [attribute; attribute].

(** A binary file of one triangle whose header begins with [solid]. *)
Definition solid_binary : ArrayBuffer :=
  list_byte_of_string "solid" ++ replicate 75 x00 ++ [x01; x00; x00; x00]
  ++ replicate 50 x00.

End BinaryLayout.

Module AsciiLayout.

Import STLLoader Props.

(** The three numbers a line gives from its token [i] on. *)
Definition token_numbers (raw : string) (i : nat) : list number :=
  let parts := JS.split_ws (JS.trim raw) in
  [parseFloat (parts !! i); parseFloat (parts !! S i); parseFloat (parts !! S (S i))].

Definition vertex_numbers (raw : string) : list number := token_numbers raw 1.
Definition normal_numbers (raw : string) : list number := token_numbers raw 2.

(** A facet of an ASCII file: its [facet normal] line and the [vertex] lines
    that follow it, however many. *)
Definition facet : Type := string * list string.

Definition facet_lines (f : facet) : list string := f.1 :: f.2.

Definition well_formed (f : facet) : Prop :=
  classify f.1 = FacetNormal ∧ Forall (λ v, classify v = Vertex) f.2.

Definition facet_positions (f : facet) : list number :=
  flat_map vertex_numbers f.2.

(** The normal of the facet, once for each of its vertices. *)
Definition facet_normals (f : facet) : list number :=
  flat_map (λ _, normal_numbers f.1) f.2.

(** The file of scenario B with a comment in front (its header still begins
    with [solid]) and without the lines [outer loop], [endloop], [endfacet]
    and [endsolid]. *)
Definition bare_facet_ascii : ArrayBuffer :=
  bytes_of (unlines ["solid x"; "; exported by hand"; "facet normal 0 0 1";
                     "  vertex 0 0 0"; "  vertex 1 0 0"; "  vertex 0 1 0"]).

(** The lines of an input that the loop of [parseASCII] does not skip. *)
Definition parsed_lines (data : ArrayBuffer) : list string :=
  filter (λ l, classify l ≠ Skipped) (JS.split_char "010"%char (TextDecoder_decode data)).

End AsciiLayout.

(** ** types/models.ts *)

(** A model of the library.  The optional preview image, size and date of
    the interface are read by none of the code embedded here. *)
Module Model3D.

Record t : Type := mk {
  id : string;
  name : string;
  filename : string;
  path : string;
  tags : list string;
  description : option string
}.

End Model3D.

Module ModelFilter.

Record t : Type := mk {
  tags : list string;
  searchTerm : string
}.

End ModelFilter.

(** ** app/page.tsx *)

Module Home.

(** The test of the search filter on one model. *)
Definition matchesSearch (searchLower : string) (model : Model3D.t) : bool :=
  JS.includes (JS.toLowerCase_latin1 (Model3D.name model)) searchLower
  || match Model3D.description model with
     | Some description => JS.includes (JS.toLowerCase_latin1 description) searchLower
     | None => false
     end
  || existsb (λ tag, JS.includes (JS.toLowerCase_latin1 tag) searchLower)
       (Model3D.tags model).

(** The test of the tag filter on one model. *)
Definition matchesTags (selected : list string) (model : Model3D.t) : bool :=
  forallb (λ tag, JS.Array_includes (Model3D.tags model) tag) selected.

(** The effect that computes [filteredModels] from [models] and [filter]. *)
Definition filterModels (models : list Model3D.t) (filter : ModelFilter.t)
    : list Model3D.t :=
  let filtered :=
    if (String.length (ModelFilter.searchTerm filter) =? 0)%nat then models
    else
      let searchLower := JS.toLowerCase_latin1 (ModelFilter.searchTerm filter) in
      List.filter (matchesSearch searchLower) models in
  if (0 <? length (ModelFilter.tags filter))%nat
  then List.filter (matchesTags (ModelFilter.tags filter)) filtered
  else filtered.

(** [availableTags] *)
Definition availableTags (models : list Model3D.t) : list string :=
  JS.Array_sort (JS.Set_from (flat_map Model3D.tags models)).

End Home.

(** ** components/ModelFilter.tsx *)

Module ModelFilterComponent.

Definition handleSearchChange (filter : ModelFilter.t) (value : string) : ModelFilter.t :=
  ModelFilter.mk (ModelFilter.tags filter) value.

Definition handleTagToggle (filter : ModelFilter.t) (tag : string) : ModelFilter.t :=
  let newTags :=
    if JS.Array_includes (ModelFilter.tags filter) tag
    then List.filter (λ t, negb (String.eqb t tag)) (ModelFilter.tags filter)
    else ModelFilter.tags filter ++ [tag] in
  ModelFilter.mk newTags (ModelFilter.searchTerm filter).

Definition clearFilters : ModelFilter.t := ModelFilter.mk [] EmptyString.

End ModelFilterComponent.

(** Sample data. *)
Module Samples.

Definition cube : Model3D.t :=
  Model3D.mk "1" "Calibration Cube" "cube.stl" "/models/cube.stl"
    ["calibration"; "test"] (Some "A 20 mm cube").

Definition vase : Model3D.t :=
  Model3D.mk "2" "Vase" "vase.stl" "/models/vase.stl" ["decor"] None.

Definition library : list Model3D.t := [cube; vase].

(** A data URL of 182 characters. *)
Definition image : string :=
  "data:image/png;base64,"
  +:+ UseModelPreview.base64 (String.concat EmptyString (replicate 30 "cube")).

(** A browser that serves the one-facet file under every URL and renders
    it, and one whose every fetch fails. *)
Definition browser : PreviewGenerator.browser :=
  PreviewGenerator.mkBrowser (λ _, Ok Props.one_facet_ascii) (λ _, Ok image).

Definition offline : PreviewGenerator.browser :=
  PreviewGenerator.mkBrowser (λ _, Throw (Error "Not Found")) (λ _, Ok image).

(** A storage that accepts every write, and one that is full. *)
Definition roomy (store : gmap string UseModelPreview.cacheData) (key : string)
    (value : UseModelPreview.cacheData) : option string := None.

Definition full (store : gmap string UseModelPreview.cacheData) (key : string)
    (value : UseModelPreview.cacheData) : option string :=
  Some "The quota has been exceeded.".

(** Wall-clock times, one second apart. *)
Definition clock (i : nat) : Z := 1700000000000 + 1000 * Z.of_nat i.

End Samples.

(** ** components/ModelCard.tsx *)

Module ModelCard.

Import UseModelPreview.

(** The options every card asks its preview with. *)
Definition previewOptions : PreviewOptions :=
  [("width", JSON.integer 300); ("height", JSON.integer 192);
   ("backgroundColor", JSON.integer 0xf0f0f0); ("modelColor", JSON.integer 0x4a90e2)].

(** The arguments of the card's [useModelPreview]. *)
Definition hookProps (model : Model3D.t) : props :=
  mkProps (Model3D.path model)
    (Some (Model3D.id model +:+ "_" +:+ Model3D.filename model))
    (Some previewOptions).

End ModelCard.

(** ** components/PreviewManager.tsx *)

Module PreviewManager.

Import UseModelPreview.

(** [Object.keys(localStorage)] *)
Definition Object_keys (store : gmap string cacheData) : list string :=
  (map_to_list store).*1.

(** The loop of [clearAllPreviews] over [keys]: the store it leaves and the
    count it reports.  The button of the page and the first step of
    [generateAllPreviews(true)] run the same loop. *)
Definition isPreviewKey (key : string) : bool :=
  JS.startsWith key "model_preview_".

Definition removePreview (acc : gmap string cacheData * nat) (key : string)
    : gmap string cacheData * nat :=
  let '(store, clearedCount) := acc in
  if isPreviewKey key then (delete key store, S clearedCount)
  else (store, clearedCount).

Definition removePreviews (keys : list string) (store : gmap string cacheData)
    : gmap string cacheData * nat :=
  fold_left removePreview keys (store, 0%nat).

Definition clearAllPreviews (store : gmap string cacheData)
    : gmap string cacheData * nat :=
  removePreviews (Object_keys store) store.

Definition getCachedPreviewsCount (store : gmap string cacheData) : nat :=
  length (List.filter isPreviewKey (Object_keys store)).

(** The key under which [generateAllPreviews] stores the preview of a
    model; [btoa] may throw. *)
Definition keyData (model : Model3D.t) : JSON.value :=
  JSON.Object
    [("url", JSON.Str (Model3D.path model));
     ("custom", JSON.Str (Model3D.id model +:+ "_" +:+ Model3D.filename model));
     ("options",
      JSON.Str (JSON.stringify
                  (JSON.Object
                     [("width", JSON.integer 300); ("height", JSON.integer 192);
                      ("backgroundColor", JSON.integer 0xf0f0f0);
                      ("modelColor", JSON.integer 0x4a90e2)])))].

Definition cacheKey (model : Model3D.t) : result string :=
  encoded ← btoa (JSON.stringify (keyData model));
  Ok ("model_preview_" +:+ encoded).

(** [error instanceof Error ? error.message : 'Unknown error'] *)
Definition errorText (e : exception) : string :=
  match e with
  | NotAnError => "Unknown error"
  | _ => errorMessage e
  end.

(** What the loop of [generateAllPreviews] carries. *)
Record run : Type := mkRun {
  store : gmap string cacheData;
  successCount : nat;
  newErrors : list string
}.

(** [localStorage.setItem(key, value)] under the quota of the browser:
    [quota store key value] is the message of the exception the browser
    throws when it refuses the write, and [None] when it accepts it. *)
Definition setItem (quota : gmap string cacheData → string → cacheData → option string)
    (key : string) (value : cacheData) (store : gmap string cacheData)
    : result (gmap string cacheData) :=
  match quota store key value with
  | None => Ok (<[key := value]> store)
  | Some message => Throw (Error message)
  end.

(** One iteration of the loop, for [model], at time [now]: the [try] block
    generates the image, builds the key and writes the entry; whatever it
    throws is collected as an error message. *)
Definition generateOne (env : PreviewGenerator.browser)
    (quota : gmap string cacheData → string → cacheData → option string)
    (now : Z) (model : Model3D.t) (r : run) : run :=
  match
    (previewUrl ← PreviewGenerator.generateModelPreview env (Model3D.path model);
     key ← cacheKey model;
     setItem quota key (mkCacheData previewUrl now (Model3D.path model) None) (store r))
  with
  | Ok store' => mkRun store' (S (successCount r)) (newErrors r)
  | Throw e =>
      mkRun (store r) (successCount r)
        (newErrors r
         ++ ["Failed to generate preview for " +:+ Model3D.name model +:+ ": "
             +:+ errorText e])
  end.

(** The loop from iteration [i] on; iteration [i] reads the time [clock i]. *)
Fixpoint generateLoop (env : PreviewGenerator.browser)
    (quota : gmap string cacheData → string → cacheData → option string)
    (clock : nat → Z) (i : nat) (models : list Model3D.t) (r : run) : run :=
  match models with
  | [] => r
  | model :: models' =>
      generateLoop env quota clock (S i) models' (generateOne env quota (clock i) model r)
  end.

(** [generateAllPreviews]: nothing when a generation is under way. *)
Definition generateAllPreviews (env : PreviewGenerator.browser)
    (quota : gmap string cacheData → string → cacheData → option string)
    (clock : nat → Z) (isGenerating clearCacheFirst : bool) (models : list Model3D.t)
    (localStorage : gmap string cacheData) : option run :=
  if isGenerating then None
  else
    let cleared :=
      if clearCacheFirst then (removePreviews (Object_keys localStorage) localStorage).1
      else localStorage in
    Some (generateLoop env quota clock 0 models (mkRun cleared 0 [])).

(** The models whose preview can be generated, and the others. *)
Definition generates (env : PreviewGenerator.browser) (model : Model3D.t) : bool :=
  match PreviewGenerator.generateModelPreview env (Model3D.path model) with
  | Ok _ => true
  | Throw _ => false
  end.

End PreviewManager.

(** * Properties *)

Import STLLoader Props.

(** ** String primitives *)

#[local] Arguments String.append !_ _ / : simpl nomatch.


Lemma startsWith_spec (s p : string) :
  JS.startsWith s p = true ↔ ∃ post, s = p +:+ post.
Proof.
  revert s. induction p as [|c p IH]; intros s; simpl.
  - split; [intros _; by exists s | done].
  - destruct s as [|d s]; simpl.
    + split; [done | intros [post H]; discriminate].
    + destruct (Ascii.eqb_spec c d) as [->|Hne]; simpl.
      * rewrite IH. split; intros [post H]; exists post; congruence.
      * split; [done | intros [post H]; congruence].
Qed.

Lemma includes_spec (s p : string) :
  JS.includes s p = true ↔ ∃ pre post, s = pre +:+ p +:+ post.
Proof.
  induction s as [|c s IH]; simpl.
  - rewrite orb_false_r, startsWith_spec. split.
    + intros [post H]. by exists EmptyString, post.
    + intros [[|d pre] [post H]]; [by exists post | discriminate].
  - rewrite orb_true_iff, startsWith_spec, IH. split.
    + intros [[post H] | [pre [post H]]].
      * by exists EmptyString, post.
      * exists (String c pre), post. simpl. by rewrite H.
    + intros [[|d pre] [post H]]; simpl in H.
      * left. by exists post.
      * right. exists pre, post. congruence.
Qed.

Lemma toLowerCase_append (a b : string) :
  JS.toLowerCase (a +:+ b) = JS.toLowerCase a +:+ JS.toLowerCase b.
Proof. induction a as [|c a IH]; simpl; [done | by rewrite IH]. Qed.

Lemma toLowerCase_split (s a b : string) :
  JS.toLowerCase s = a +:+ b →
  ∃ s1 s2, s = s1 +:+ s2 ∧ JS.toLowerCase s1 = a ∧ JS.toLowerCase s2 = b.
Proof.
  revert s. induction a as [|c a IH]; intros s H; simpl in H.
  - by exists EmptyString, s.
  - destruct s as [|d s]; [discriminate|]. simpl in H.
    injection H as Hc Hs. destruct (IH _ Hs) as (s1 & s2 & -> & H1 & H2).
    exists (String d s1), s2. simpl. by rewrite Hc, H1.
Qed.

(** [includes] after [toLowerCase] is a case-insensitive search. *)
Lemma includes_toLowerCase (s p : string) :
  JS.includes (JS.toLowerCase s) p = true
  ↔ ∃ pre w post, s = pre +:+ w +:+ post ∧ JS.toLowerCase w = p.
Proof.
  rewrite includes_spec. split.
  - intros (pre & post & H).
    apply toLowerCase_split in H as (s1 & s2 & -> & _ & H).
    apply toLowerCase_split in H as (w & s3 & -> & Hw & _).
    by exists s1, w, s3.
  - intros (pre & w & post & -> & Hw).
    exists (JS.toLowerCase pre), (JS.toLowerCase post).
    by rewrite !toLowerCase_append, Hw.
Qed.

(** ** White space on the encoded text *)

(** The white space [JS.spaces] recognises on the bytes is the white space
    of the language on the text: shown here for the encoding of any sequence
    of code points. *)

Lemma In_all_ascii (c : ascii) : In c all_ascii.
Proof.
  rewrite <-(ascii_nat_embedding c). apply in_map, in_seq.
  pose proof (nat_ascii_bounded c). lia.
Qed.

Lemma forall_below_spec (bits : nat) (P : N → bool) (base n : N) :
  forall_below bits P base = true →
  (base * 2 ^ N.of_nat bits ≤ n < (base + 1) * 2 ^ N.of_nat bits)%N → P n = true.
Proof.
  revert base. induction bits as [|bits IH]; intros base H Hn.
  - simpl in *. by replace n with base by lia.
  - cbn [forall_below] in H. apply andb_prop in H as [H0 H1].
    rewrite Nat2N.inj_succ, N.pow_succ_r' in Hn.
    destruct (N.lt_ge_cases n ((2 * base + 1) * 2 ^ N.of_nat bits)).
    + apply (IH (2 * base)%N); [done | lia].
    + apply (IH (2 * base + 1)%N); [done | lia].
Qed.

(** The check holds of every code point below 0x10000: by evaluation, and
    above, where no character is white space, by the range of the bytes. *)
Lemma encoded_well_BMP (cp : N) : (cp < 0x10000)%N → encoded_well cp = true.
Proof.
  assert (H : forall_below 16 encoded_well 0 = true) by (vm_compute; reflexivity).
  intros Hcp. apply (forall_below_spec 16 _ 0); [done|]. simpl. lia.
Qed.

(** [JS.whitespace_length] looks no further than the first byte when that
    byte begins no white space, and no further than the encoded character
    when that is self-contained. *)
Lemma whitespace_length_inert (c : ascii) (s : string) :
  inert c = true → JS.whitespace_length (String c s) = 0%nat.
Proof.
  unfold inert, JS.whitespace_length. intros H. apply negb_true_iff in H.
  repeat (apply orb_false_elim in H as [H ?]).
  rewrite H. cbn [orb]. destruct (N.eqb (N_of_ascii c) 32); [done|].
  destruct s as [|c1 [|c2 s]]; [done|..].
  - by destruct (N.eqb (N_of_ascii c) 194).
  - destruct (N.eqb (N_of_ascii c) 194); [done|].
    destruct (N.eqb (N_of_ascii c) 225); [done|].
    destruct (N.eqb (N_of_ascii c) 226); [done|].
    destruct (N.eqb (N_of_ascii c) 227); [done|].
    by destruct (N.eqb (N_of_ascii c) 239).
Qed.

Lemma whitespace_length_self_contained (s rest : string) :
  self_contained s = true → JS.whitespace_length (s +:+ rest) = JS.whitespace_length s.
Proof.
  destruct s as [|c0 [|c1 [|c2 s]]]; [done|..]; intros H.
  - cbn [self_contained] in H. apply negb_true_iff in H.
    repeat (apply orb_false_elim in H as [H ?]).
    cbn [String.append JS.whitespace_length].
    destruct (_ || _); [done|]. destruct rest as [|d1 [|d2 rest]]; [done|..].
    + by rewrite H.
    + rewrite H. cbn [andb]. 
      match goal with |- (if ?b then _ else _) = _ => replace b with false; [done|] end.
      symmetry. repeat match goal with E : N.eqb _ _ = false |- _ => rewrite E; clear E end.
      done.
  - cbn [self_contained] in H. apply negb_true_iff in H.
    repeat (apply orb_false_elim in H as [H ?]).
    cbn [String.append JS.whitespace_length].
    destruct (_ || _); [done|]. destruct (_ && _); [done|].
    destruct rest as [|d2 rest]; [done|].
    match goal with |- (if ?b then _ else _) = _ => replace b with false; [done|] end.
    symmetry. repeat match goal with E : N.eqb _ _ = false |- _ => rewrite E; clear E end.
    done.
  - reflexivity.
Qed.

(** The bytes from 0x80 to 0xBF and from 0xF0 on begin no white space. *)
Lemma inert_range (n : N) :
  (128 ≤ n < 192)%N ∨ (240 ≤ n < 256)%N → inert (ascii_of_N n) = true.
Proof.
  assert (H : forallb (λ c, let b := N_of_ascii c in
                            implb ((N.leb 128 b && N.ltb b 192) || N.leb 240 b) (inert c))
                all_ascii = true) by (vm_compute; reflexivity).
  intros Hn. rewrite forallb_forall in H. specialize (H _ (In_all_ascii (ascii_of_N n))).
  assert (Hlt : (n < 256)%N) by (destruct Hn; lia).
  cbv zeta in H. rewrite (N_ascii_embedding n Hlt) in H.
  destruct (inert (ascii_of_N n)); [done|]. rewrite implb_false_r in H.
  apply negb_true_iff, orb_false_elim in H as [H1 H2].
  apply N.leb_gt in H2. apply andb_false_iff in H1 as [H1|H1];
    [apply N.leb_gt in H1 | apply N.ltb_ge in H1]; lia.
Qed.

Lemma is_white_space_BMP (cp : N) : is_white_space cp = true → (cp < 0x10000)%N.
Proof.
  unfold is_white_space. rewrite existsb_exists. intros (k & Hk & E).
  apply N.eqb_eq in E as ->. simpl in Hk.
  repeat (destruct Hk as [<-|Hk]; [done|]). done.
Qed.

Lemma encoded_well_all (cp : N) : (cp < 0x110000)%N → encoded_well cp = true.
Proof.
  intros Hcp. destruct (N.lt_ge_cases cp 0x10000) as [H|H]; [by apply encoded_well_BMP|].
  unfold encoded_well.
  destruct (is_white_space cp) eqn:E; [apply is_white_space_BMP in E; lia|].
  unfold utf8. rewrite !(proj2 (N.ltb_ge _ _)) by lia.
  assert (cp / 262144 < 5)%N by (apply N.Div0.div_lt_upper_bound; lia).
  pose proof (N.mod_lt (cp / 4096) 64 ltac:(done)).
  pose proof (N.mod_lt (cp / 64) 64 ltac:(done)).
  pose proof (N.mod_lt cp 64 ltac:(done)).
  cbn [code_unit String.append self_contained andb list_ascii_of_string forallb].
  generalize dependent (cp / 262144)%N. generalize dependent ((cp / 4096) mod 64)%N.
  generalize dependent ((cp / 64) mod 64)%N. generalize dependent (cp mod 64)%N.
  intros m0 ? m1 ? m2 ? m3 ?.
  rewrite whitespace_length_inert by (apply inert_range; lia).
  unfold code_unit. cbn [list_ascii_of_string forallb].
  rewrite !inert_range by lia. done.
Qed.

(** The marks of the bytes of a white-space character that are still to
    come, and of bytes that begin no white space. *)
Lemma spaces_from_pending (s rest : string) :
  JS.spaces_from (s +:+ rest) (String.length s)
  = replicate (String.length s) true ++ JS.spaces_from rest 0.
Proof. induction s as [|c s IH]; [done|]. simpl. by rewrite IH. Qed.

Lemma spaces_from_inert (s rest : string) :
  forallb inert (list_ascii_of_string s) = true →
  JS.spaces_from (s +:+ rest) 0 = replicate (String.length s) false ++ JS.spaces_from rest 0.
Proof.
  induction s as [|c s IH]; [done|]. cbn [list_ascii_of_string forallb].
  intros [Hc Hs]%andb_prop. cbn [String.append JS.spaces_from].
  rewrite (whitespace_length_inert c _ Hc). cbn [String.length replicate app].
  by rewrite IH.
Qed.

Lemma spaces_from_utf8 (cp : N) (rest : string) :
  (cp < 0x110000)%N →
  JS.spaces_from (utf8 cp +:+ rest) 0
  = replicate (String.length (utf8 cp)) (is_white_space cp) ++ JS.spaces_from rest 0.
Proof.
  intros Hcp. pose proof (encoded_well_all cp Hcp) as H. unfold encoded_well in H.
  cbv zeta in H. apply andb_prop in H as [Hself H].
  pose proof (whitespace_length_self_contained (utf8 cp) rest Hself) as Hlen.
  destruct (utf8 cp) as [|c0 tail] eqn:E; [done|].
  cbn [String.append JS.spaces_from] in *. rewrite Hlen.
  destruct (is_white_space cp).
  - apply Nat.eqb_eq in H. rewrite H. cbn [String.length replicate app].
    by rewrite spaces_from_pending.
  - apply andb_prop in H as [H Htail]. apply Nat.eqb_eq in H. rewrite H.
    cbn [String.length replicate app]. by rewrite spaces_from_inert.
Qed.

(** On the UTF-8 encoding of a text, [JS.spaces] marks exactly the bytes of
    the white-space characters of the text. *)
Lemma spaces_utf8_text (cps : list N) :
  Forall (λ cp, (cp < 0x110000)%N) cps →
  JS.spaces (utf8_text cps) = white_space_marks cps.
Proof.
  unfold JS.spaces, white_space_marks.
  induction 1 as [|cp cps Hcp _ IH]; [done|].
  cbn [utf8_text flat_map]. by rewrite spaces_from_utf8, IH.
Qed.

(** ** The binary parser *)

Lemma getFloat32_Ok (reader : ArrayBuffer) (offset : Z) :
  (offset + 4 ≤ byteLength reader)%Z →
  getFloat32 reader offset = Ok (Float32 (word32 reader offset)).
Proof. intros H. unfold getFloat32. by rewrite (proj2 (Z.leb_le _ _) H). Qed.

Lemma getFloat32_Throw (reader : ArrayBuffer) (offset : Z) :
  (byteLength reader < offset + 4)%Z →
  getFloat32 reader offset = Throw RangeError.
Proof. intros H. unfold getFloat32. by rewrite (proj2 (Z.leb_gt _ _) H). Qed.

(** Case analysis on the bounds check of [getFloat32] at [off]: the goal goes
    on when the read succeeds and is closed when it throws. *)
Ltac read_float reader off :=
  destruct (Z.le_gt_cases (off + 4) (byteLength reader));
  [ rewrite (getFloat32_Ok reader off) by lia; cbn [mbind result_bind]
  | rewrite (getFloat32_Throw reader off) by lia; done ].

(** The three vertices of a face are read when the 36 bytes are there, and
    add nine numbers to each array. *)
Lemma parseBinary_vertices_Ok reader todo nx ny nz offset vs ns :
  (offset + 12 * Z.of_nat todo ≤ byteLength reader)%Z →
  ∃ vs' ns',
    parseBinary_vertices reader todo nx ny nz offset vs ns
    = Ok ((offset + 12 * Z.of_nat todo)%Z, vs', ns')
    ∧ length vs' = (length vs + 3 * todo)%nat
    ∧ length ns' = (length ns + 3 * todo)%nat.
Proof.
  revert offset vs ns. induction todo as [|todo IH]; intros offset vs ns H.
  - exists vs, ns. simpl. rewrite Z.add_0_r. repeat split; lia.
  - simpl parseBinary_vertices.
    rewrite !getFloat32_Ok by lia. simpl.
    destruct (IH (offset + 12)%Z (vs ++ [Float32 (word32 reader offset);
        Float32 (word32 reader (offset + 4)); Float32 (word32 reader (offset + 8))])
      (ns ++ [nx; ny; nz])) as (vs' & ns' & E & Hv & Hn); [lia|].
    exists vs', ns'. rewrite E. split; [f_equal; f_equal; f_equal; lia|].
    rewrite Hv, Hn, !length_app. simpl. lia.
Qed.

Lemma parseBinary_vertices_Throw reader todo nx ny nz offset vs ns :
  (byteLength reader < offset + 12 * Z.of_nat todo)%Z → todo ≠ 0%nat →
  parseBinary_vertices reader todo nx ny nz offset vs ns = Throw RangeError.
Proof.
  revert offset vs ns. induction todo as [|todo IH]; intros offset vs ns H Hne.
  - done.
  - simpl parseBinary_vertices.
    destruct (Z.le_gt_cases (offset + 12) (byteLength reader)) as [Hle|Hgt].
    + rewrite !getFloat32_Ok by lia. simpl. apply IH; [lia|].
      intros ->. simpl in H. lia.
    + read_float reader offset. read_float reader (offset + 4)%Z.
      read_float reader (offset + 8)%Z. lia.
Qed.

Lemma bind_Ok {A B : Type} (a : A) (k : A → result B) : (Ok a ≫= k) = k a.
Proof. reflexivity. Qed.

Lemma parseBinary_faces_S reader todo offset vs ns :
  parseBinary_faces reader (S todo) offset vs ns
  = (nx ← getFloat32 reader offset;
     ny ← getFloat32 reader (offset + 4);
     nz ← getFloat32 reader (offset + 8);
     r ← parseBinary_vertices reader 3 nx ny nz (offset + 12) vs ns;
     let '(offset', vs', ns') := r in
     parseBinary_faces reader todo (offset' + 2) vs' ns').
Proof. reflexivity. Qed.

(** The loop over the faces succeeds exactly when every record is there up to
    its last vertex: the two attribute bytes of the last record are skipped
    without being read. *)
Lemma parseBinary_faces_Ok reader todo offset vs ns :
  (todo = 0%nat ∨ offset + 50 * Z.of_nat todo - 2 ≤ byteLength reader)%Z →
  ∃ vs' ns',
    parseBinary_faces reader todo offset vs ns = Ok (vs', ns')
    ∧ length vs' = (length vs + 9 * todo)%nat
    ∧ length ns' = (length ns + 9 * todo)%nat.
Proof.
  revert offset vs ns. induction todo as [|todo IH]; intros offset vs ns H.
  - exists vs, ns. simpl. repeat split; lia.
  - destruct H as [H|H]; [discriminate|].
    rewrite parseBinary_faces_S.
    rewrite !getFloat32_Ok by lia. cbn [mbind result_bind].
    edestruct (parseBinary_vertices_Ok reader 3) as (vs1 & ns1 & E & Hv & Hn);
      [|rewrite E]; [simpl; lia|].
    cbn [mbind result_bind].
    destruct (IH (offset + 12 + 12 * Z.of_nat 3 + 2)%Z vs1 ns1)
      as (vs' & ns' & E' & Hv' & Hn').
    { destruct todo; [by left | right; lia]. }
    exists vs', ns'. rewrite E'. split; [done|]. lia.
Qed.

Lemma parseBinary_faces_Throw reader todo offset vs ns :
  (byteLength reader < offset + 50 * Z.of_nat todo - 2)%Z → todo ≠ 0%nat →
  parseBinary_faces reader todo offset vs ns = Throw RangeError.
Proof.
  revert offset vs ns. induction todo as [|todo IH]; intros offset vs ns H Hne; [done|].
  rewrite parseBinary_faces_S.
  destruct (Z.le_gt_cases (offset + 48) (byteLength reader)) as [Hle|Hgt].
  - rewrite !getFloat32_Ok by lia. cbn [mbind result_bind].
    edestruct (parseBinary_vertices_Ok reader 3) as (vs1 & ns1 & E & _);
      [|rewrite E]; [simpl; lia|].
    cbn [mbind result_bind]. apply IH; [lia|]. intros ->. simpl in H. lia.
  - read_float reader offset. read_float reader (offset + 4)%Z.
    read_float reader (offset + 8)%Z.
    rewrite parseBinary_vertices_Throw; [done | simpl; lia | done].
Qed.

Lemma word32_nonneg data offset : (0 ≤ word32 data offset)%Z.
Proof.
  assert (Hb : ∀ i, (0 ≤ byteAt data i)%Z).
  { intros i. unfold byteAt. destruct (data !! Z.to_nat i); lia. }
  unfold word32. rewrite !Z.shiftl_mul_pow2 by lia.
  pose proof (Hb offset). pose proof (Hb (offset + 1)%Z).
  pose proof (Hb (offset + 2)%Z). pose proof (Hb (offset + 3)%Z). lia.
Qed.

Lemma parseBinary_Throw data :
  binary_truncated data → parseBinary data = Throw RangeError.
Proof.
  unfold binary_truncated, declared_faces, parseBinary, getUint32.
  generalize (word32 data 80). intros faces H.
  destruct (Z.leb_spec (80 + 4) (byteLength data)) as [Hlen|Hlen]; [|done].
  rewrite bind_Ok. destruct H as [H|[H1 H2]]; [lia|].
  rewrite parseBinary_faces_Throw; [done | lia | lia].
Qed.

Lemma parseBinary_Ok data :
  ¬ binary_truncated data →
  ∃ g, parseBinary data = Ok g
       ∧ length (position g) = (9 * Z.to_nat (declared_faces data))%nat
       ∧ length (normal g) = (9 * Z.to_nat (declared_faces data))%nat.
Proof.
  unfold binary_truncated, declared_faces, parseBinary, getUint32.
  generalize (word32_nonneg data 80). generalize (word32 data 80).
  intros faces Hn H.
  destruct (Z.leb_spec (80 + 4) (byteLength data)) as [Hlen|Hlen]; [|lia].
  rewrite bind_Ok.
  destruct (parseBinary_faces_Ok data (Z.to_nat faces) 84 [] [])
    as (vs & ns & E & Hv & Hn').
  { destruct (decide (faces = 0%Z)) as [->|]; [by left | right].
    rewrite Z2Nat.id by done. apply Z.nlt_ge. intros Hc.
    apply H. right. split; lia. }
  rewrite E, bind_Ok. eexists. split; [done|]. clear H. simpl in *. lia.
Qed.

(** ** The ASCII parser *)

Lemma parseASCII_line_FacetNormal st raw :
  classify raw = FacetNormal →
  ∃ n, parseASCII_line st raw = mkAsciiState (vertices st) (normals st) (Some n).
Proof.
  unfold classify, parseASCII_line. intros H.
  destruct (JS.startsWith (JS.trim raw) "facet normal"); [by eexists|].
  destruct (JS.startsWith (JS.trim raw) "vertex"); discriminate.
Qed.

Lemma parseASCII_line_Vertex st raw :
  classify raw = Vertex →
  ∃ v, length v = 3%nat ∧
    parseASCII_line st raw =
      match currentNormal st with
      | Some n => mkAsciiState (vertices st ++ v) (normals st ++ [x n; y n; z n]) (Some n)
      | None => mkAsciiState (vertices st ++ v) (normals st) None
      end.
Proof.
  unfold classify, parseASCII_line. intros H.
  destruct (JS.startsWith (JS.trim raw) "facet normal"); [discriminate|].
  destruct (JS.startsWith (JS.trim raw) "vertex"); [|discriminate].
  eexists. split; [|by destruct (currentNormal st)]. done.
Qed.

Lemma parseASCII_line_Skipped st raw :
  classify raw = Skipped → parseASCII_line st raw = st.
Proof.
  unfold classify, parseASCII_line. intros H.
  destruct (JS.startsWith (JS.trim raw) "facet normal"); [discriminate|].
  by destruct (JS.startsWith (JS.trim raw) "vertex").
Qed.

(** Decide the head of a [filter] over line kinds. *)
Ltac filter_kinds :=
  repeat first
    [ rewrite filter_cons_True by (cbv beta; done)
    | rewrite filter_cons_False
        by (cbv beta; first [done | let H := fresh in intros H; by apply H]) ];
  simpl.

Lemma parseASCII_fold lines st :
  let st' := fold_left parseASCII_line lines st in
  length (vertices st')
    = (length (vertices st) + 3 * vertex_lines (map classify lines))%nat
  ∧ length (normals st')
    = (length (normals st) + 3 * vertex_lines (lit st (map classify lines)))%nat.
Proof.
  revert st. induction lines as [|raw lines IH]; intros st; simpl.
  - unfold lit, vertex_lines. destruct (currentNormal st); simpl; lia.
  - destruct (IH (parseASCII_line st raw)) as [Hv Hn]. rewrite Hv, Hn. clear IH Hv Hn.
    unfold lit, vertex_lines. destruct (classify raw) eqn:Hk.
    + destruct (parseASCII_line_FacetNormal st raw Hk) as [n ->].
      destruct (currentNormal st); simpl; filter_kinds; lia.
    + destruct (parseASCII_line_Vertex st raw Hk) as (v & Hlen & ->).
      destruct (currentNormal st); simpl; filter_kinds; rewrite ?length_app; simpl; lia.
    + rewrite (parseASCII_line_Skipped st raw Hk).
      destruct (currentNormal st); simpl; filter_kinds; lia.
Qed.

Lemma count_exact (array : list number) (n : nat) :
  length array = (3 * n)%nat → count array = n.
Proof.
  intros H. unfold count. rewrite H, Nat.mul_comm. by apply Nat.div_mul.
Qed.

Lemma parseASCII_lengths data :
  let g := parseASCII (TextDecoder_decode data) in
  length (position g) = (3 * vertex_lines (line_kinds data))%nat
  ∧ length (normal g) = (3 * vertex_lines (from_first_facet (line_kinds data)))%nat.
Proof.
  unfold parseASCII, parseASCII_lines, line_kinds. simpl.
  destruct (parseASCII_fold (JS.split_char "010" (TextDecoder_decode data))
              (mkAsciiState [] [] None)) as [Hv Hn].
  split; [rewrite Hv | rewrite Hn]; simpl; done.
Qed.

Lemma parseASCII_counts data :
  let g := parseASCII (TextDecoder_decode data) in
  count (position g) = vertex_lines (line_kinds data)
  ∧ count (normal g) = vertex_lines (from_first_facet (line_kinds data)).
Proof.
  unfold parseASCII, parseASCII_lines, line_kinds. simpl.
  destruct (parseASCII_fold (JS.split_char "010" (TextDecoder_decode data))
              (mkAsciiState [] [] None)) as [Hv Hn].
  split; apply count_exact; [rewrite Hv | rewrite Hn]; simpl; done.
Qed.

Lemma vertex_lines_not_skipped ks :
  vertex_lines (filter (λ k, k ≠ Skipped) ks) = vertex_lines ks.
Proof.
  unfold vertex_lines.
  induction ks as [|[] ks IH]; simpl; [done|..]; filter_kinds; by rewrite ?IH.
Qed.

Lemma from_first_facet_not_skipped ks :
  from_first_facet (filter (λ k, k ≠ Skipped) ks)
  = filter (λ k, k ≠ Skipped) (from_first_facet ks).
Proof. induction ks as [|[] ks IH]; simpl; filter_kinds; done. Qed.

Lemma vertex_lines_facets n :
  vertex_lines (mjoin (replicate n [FacetNormal; Vertex; Vertex; Vertex])) = (3 * n)%nat.
Proof.
  unfold vertex_lines. induction n as [|n IH]; simpl; [done|].
  filter_kinds. simpl in IH. rewrite IH. lia.
Qed.

(** In a well-grouped input every position has its normal. *)
Lemma facets_of_three_counts n ks :
  facets_of_three n ks →
  vertex_lines ks = (3 * n)%nat ∧ vertex_lines (from_first_facet ks) = (3 * n)%nat.
Proof.
  unfold facets_of_three. intros H. split.
  - by rewrite <-vertex_lines_not_skipped, H, vertex_lines_facets.
  - rewrite <-vertex_lines_not_skipped, <-from_first_facet_not_skipped, H.
    destruct n as [|n]; [done|].
    change (from_first_facet (mjoin (replicate (S n) [FacetNormal; Vertex; Vertex; Vertex])))
      with (mjoin (replicate (S n) [FacetNormal; Vertex; Vertex; Vertex])).
    apply vertex_lines_facets.
Qed.

(** ** Claims about the parser *)

(** C9.  An input is classified as ASCII exactly when its first 80 bytes,
    decoded, contain [solid] in some mix of upper and lower case, and as
    binary otherwise; [parseSTL] takes the ASCII line parser in the first case
    and the binary record parser in the second, on no other ground. *)
Theorem C9_format_detection (data : ArrayBuffer) :
  (isASCII data = true
   ↔ ∃ pre w post,
       TextDecoder_decode (take 80 data) = pre +:+ w +:+ post
       ∧ JS.toLowerCase w = "solid")
  ∧ (isASCII data = true → parseSTL data = Ok (parseASCII (TextDecoder_decode data)))
  ∧ (isASCII data = false → parseSTL data = parseBinary data).
Proof.
  split; [apply includes_toLowerCase|].
  unfold parseSTL. split; intros ->; done.
Qed.

Lemma C9_format_detection_witness :
  isASCII (bytes_of "  SoLiD cube") = true
  ∧ parseSTL (bytes_of "  SoLiD cube")
    = Ok (parseASCII (TextDecoder_decode (bytes_of "  SoLiD cube")))
  ∧ parseSTL twelve_bytes = parseBinary twelve_bytes.
Proof.
  destruct (C9_format_detection (bytes_of "  SoLiD cube")) as (Hiff & Hascii & _).
  destruct (C9_format_detection twelve_bytes) as (_ & _ & Hbinary).
  assert (H : isASCII (bytes_of "  SoLiD cube") = true).
  { apply Hiff. exists "  ", "SoLiD", " cube". split; reflexivity. }
  split; [exact H|]. split; [exact (Hascii H) | exact (Hbinary eq_refl)].
Defined.

(** C2, as stated, fails: a binary input that declares one triangle and is two
    bytes short of [84 + 50 * 1] parses without any error. *)
Lemma C2_counterexample :
  isASCII without_attribute_bytes = false
  ∧ declared_faces without_attribute_bytes = 1%Z
  ∧ (byteLength without_attribute_bytes < 84 + 50 * declared_faces without_attribute_bytes)%Z
  ∧ ∃ g, parseSTL without_attribute_bytes = Ok g.
Proof.
  split; [reflexivity|]. split; [reflexivity|]. split; [reflexivity|].
  eexists. vm_compute. reflexivity.
Qed.

(** C2, amended.  A binary-classified input fails to parse exactly when it is
    shorter than the 84-byte header or, declaring [N >= 1] triangles, shorter
    than [82 + 50 * N] bytes; the failure is the [RangeError] of the
    [DataView] accessor.  Any other binary-classified input parses. *)
Theorem C2_truncated_binary (data : ArrayBuffer) :
  isASCII data = false →
  (binary_truncated data → parseSTL data = Throw RangeError)
  ∧ (¬ binary_truncated data → ∃ g, parseSTL data = Ok g).
Proof.
  intros Hbin. unfold parseSTL. rewrite Hbin. split.
  - apply parseBinary_Throw.
  - intros H. destruct (parseBinary_Ok data H) as (g & E & _). by exists g.
Qed.

Lemma C2_truncated_binary_witness :
  parseSTL twelve_bytes = Throw RangeError
  ∧ ∃ g, parseSTL without_attribute_bytes = Ok g.
Proof.
  split.
  - apply (C2_truncated_binary twelve_bytes); [reflexivity|].
    left. vm_compute. reflexivity.
  - apply (C2_truncated_binary without_attribute_bytes); [reflexivity|].
    vm_compute. intros [H|[_ H]]; discriminate H.
Defined.

(** C1, as stated, fails on an ASCII input: with a [vertex] line before any
    [facet normal] line there is one position and no normal. *)
Lemma C1_counterexample :
  ∃ g, isASCII vertex_before_normal = true
       ∧ parseSTL vertex_before_normal = Ok g
       ∧ count (position g) = 1%nat
       ∧ count (normal g) = 0%nat
       ∧ count (normal g) ≠ count (position g)
       ∧ ∀ triangles : nat, count (position g) ≠ (3 * triangles)%nat.
Proof.
  eexists. do 4 (split; [vm_compute; reflexivity|]).
  split; [vm_compute; discriminate|].
  intros triangles. vm_compute count. lia.
Qed.

(** C1, amended.  The numbers of a parsed geometry come in triples, so that
    its counts are exact.  A geometry parsed from a binary-classified input
    with [N] declared triangles has [3 * N] positions and as many normals.  A
    geometry parsed from an ASCII-classified input has one position per
    [vertex] line and one normal per [vertex] line that comes after the first
    [facet normal] line; when the lines are [n] facets of three vertices each
    it has [3 * n] positions and as many normals. *)
Theorem C1_geometry_counts (data : ArrayBuffer) (g : BufferGeometry) :
  parseSTL data = Ok g →
  (length (position g) = (3 * count (position g))%nat
   ∧ length (normal g) = (3 * count (normal g))%nat)
  ∧ (isASCII data = false →
     count (position g) = (3 * Z.to_nat (declared_faces data))%nat
     ∧ count (normal g) = count (position g))
  ∧ (isASCII data = true →
     count (position g) = vertex_lines (line_kinds data)
     ∧ count (normal g) = vertex_lines (from_first_facet (line_kinds data))
     ∧ ∀ n, facets_of_three n (line_kinds data) →
            count (position g) = (3 * n)%nat
            ∧ count (normal g) = count (position g)).
Proof.
  unfold parseSTL. intros Hg. destruct (isASCII data) eqn:Hk.
  - injection Hg as <-.
    destruct (parseASCII_counts data) as [Hp Hn].
    destruct (parseASCII_lengths data) as [Lp Ln]. cbv zeta in *.
    split; [by rewrite Hp, Hn|]. split; [done|]. intros _.
    split; [exact Hp|]. split; [exact Hn|].
    intros n Hn3. destruct (facets_of_three_counts n _ Hn3) as [H1 H2].
    rewrite Hp, Hn. split; congruence.
  - destruct (decide (binary_truncated data)) as [Ht|Ht].
    { rewrite (parseBinary_Throw data Ht) in Hg. discriminate. }
    destruct (parseBinary_Ok data Ht) as (g' & E & Hp & Hn).
    rewrite E in Hg. injection Hg as <-.
    rewrite (count_exact (position g') (3 * Z.to_nat (declared_faces data))) by lia.
    rewrite (count_exact (normal g') (3 * Z.to_nat (declared_faces data))) by lia.
    split; [split; lia|]. split; [done|]. intros [=].
Qed.

Lemma C1_geometry_counts_witness :
  match parseSTL one_facet_ascii, parseSTL without_attribute_bytes,
        parseSTL no_break_vertex with
  | Ok g1, Ok g2, Ok g3 =>
      (count (position g1) = 3%nat ∧ count (normal g1) = 3%nat)
      ∧ (count (position g2) = 3%nat ∧ count (normal g2) = 3%nat)
      ∧ (count (position g3) = 1%nat ∧ count (normal g3) = 0%nat)
  | _, _, _ => False
  end.
Proof.
  destruct (parseSTL one_facet_ascii) as [g1|e1] eqn:E1;
    [|vm_compute in E1; discriminate E1].
  destruct (parseSTL without_attribute_bytes) as [g2|e2] eqn:E2;
    [|vm_compute in E2; discriminate E2].
  destruct (parseSTL no_break_vertex) as [g3|e3] eqn:E3;
    [|vm_compute in E3; discriminate E3].
  split; [|split].
  - destruct (C1_geometry_counts one_facet_ascii g1 E1) as (_ & _ & H).
    destruct (H eq_refl) as (_ & _ & H3).
    destruct (H3 1%nat eq_refl) as [Hp Hn]. rewrite Hn, Hp. split; reflexivity.
  - destruct (C1_geometry_counts without_attribute_bytes g2 E2) as (_ & H & _).
    destruct (H eq_refl) as [Hp Hn]. rewrite Hn, Hp. split; reflexivity.
  - destruct (C1_geometry_counts no_break_vertex g3 E3) as (_ & _ & H).
    destruct (H eq_refl) as (Hp & Hn & _). rewrite Hn, Hp. split; reflexivity.
Defined.

(** ** The adaptive scale *)

Lemma Qle_bool_false (a b : Q) : Qle_bool a b = false → (b < a)%Q.
Proof.
  intros H. apply Qnot_le_lt. intros Hle. apply Qle_bool_iff in Hle. congruence.
Qed.

Lemma Qinv_large (c x : Q) :
  (0 < c)%Q → (c <= x)%Q → (0 < (/ x))%Q ∧ (c * (/ x) <= 1)%Q.
Proof.
  intros Hc Hx. assert (Hpos : (0 < x)%Q) by lra. split.
  - by apply Qinv_lt_0_compat.
  - change (c / x <= 1)%Q. apply Qle_shift_div_r; lra.
Qed.

Lemma Qinv_antitone (x y : Q) : (0 < x)%Q → (x <= y)%Q → ((/ y) <= (/ x))%Q.
Proof.
  intros Hx Hxy. apply Qle_shift_inv_r; [lra|].
  rewrite Qmult_comm. change (1 <= y / x)%Q. apply Qle_shift_div_l; lra.
Qed.

Lemma Qsquare_nonneg (a : Q) : (0 <= a * a)%Q.
Proof.
  destruct (Qlt_le_dec a 0).
  - setoid_replace (a * a)%Q with ((- a) * (- a))%Q using relation Qeq by ring.
    apply Qmult_le_0_compat; lra.
  - apply Qmult_le_0_compat; lra.
Qed.

(** The hyperbola [c * c / x] stays above its tangent at [c]. *)
Lemma Qinv_tangent (c x : Q) : (0 < x)%Q → (2 * c - x <= c * c * (/ x))%Q.
Proof.
  intros Hx. change (2 * c - x <= c * c / x)%Q. apply Qle_shift_div_l; [done|].
  pose proof (Qsquare_nonneg (x - c)) as H.
  assert (E : (c * c - (2 * c - x) * x == (x - c) * (x - c))%Q) by ring. lra.
Qed.

(** Case analysis on a comparison of the scale function. *)
Ltac case_Qle a b :=
  let H := fresh "Hc" in
  destruct (Qle_bool a b) eqn:H;
  [apply Qle_bool_iff in H | apply Qle_bool_false in H].

(** Decide the tests of the scale function, the bucket tests before the clamp
    that depends on them. *)
Ltac scale_tests :=
  repeat match goal with
         | |- context [Qle_bool ?a ?b] =>
             lazymatch a with
             | context [if _ then _ else _] => fail
             | _ => lazymatch b with
                    | context [if _ then _ else _] => fail
                    | _ => case_Qle a b; cbn [negb]; cbv iota
                    end
             end
         end.

(** Divisions by a literal become products. *)
Ltac scale_arith :=
  unfold Qdiv in *;
  change (/ 9.0)%Q with (10 # 90)%Q in *;
  change (/ 90.0)%Q with (10 # 900)%Q in *.

Ltac scale_unfold :=
  unfold PreviewGenerator.calculateAdaptiveScale,
    Model3DViewer.calculateAdaptiveScale, Math.ltb, Math.max;
  cbv zeta.

(** Close a goal about sizes [x] and [y] in the top bucket, where the scale
    is an inverse: the inverses are bounded and ordered. *)
Ltac scale_inverse c x y Hx Hxy :=
  try (destruct (Qinv_large c x) as [? ?]; [lra|lra|]);
  try (destruct (Qinv_large c y) as [? ?]; [lra|lra|]);
  pose proof (Qinv_antitone x y Hx Hxy);
  generalize dependent (/ x)%Q; generalize dependent (/ y)%Q; intros; lra.

(** The scale of the generator never increases as the size grows, over the
    positive sizes. *)
Lemma PreviewGenerator_scale_non_increasing :
  non_increasing PreviewGenerator.calculateAdaptiveScale.
Proof.
  intros x y Hx Hxy. scale_unfold.
  scale_tests; scale_arith; try lra; scale_inverse 100.0%Q x y Hx Hxy.
Qed.

(** The scale of the viewer never increases as the size grows, over the
    positive sizes. *)
Lemma Model3DViewer_scale_non_increasing :
  non_increasing Model3DViewer.calculateAdaptiveScale.
Proof.
  intros x y Hx Hxy. scale_unfold.
  scale_tests; scale_arith; try lra; scale_inverse 100.0%Q x y Hx Hxy.
Qed.

Section Continuity.

Variable f : Q → Q.
Variable b : Q.

(** A function that moves by at most [1 / k] times the distance to [b], for
    the sizes within [r] of [b], is continuous at [b]. *)
Lemma lipschitz_continuous (k r : Q) :
  (0 < k)%Q → (0 < r)%Q →
  (∀ x, (Qabs (x - b) < r)%Q → (k * Qabs (f x - f b) <= Qabs (x - b))%Q) →
  continuous_at f b.
Proof.
  intros Hk Hr Hlip ε Hε.
  assert (Hkε : (0 < k * ε)%Q) by (apply Qmult_lt_0_compat; done).
  assert (Hclose : ∀ x, (Qabs (x - b) < r)%Q → (Qabs (x - b) < k * ε)%Q →
                        (Qabs (f x - f b) < ε)%Q).
  { intros x H1 H2. apply (Qmult_lt_l _ _ k Hk).
    eapply Qle_lt_trans; [apply Hlip|]; done. }
  destruct (Qlt_le_dec (k * ε) r) as [Hsmall|Hbig].
  - exists (k * ε)%Q. split; [done|]. intros x Hx. apply Hclose; [lra | done].
  - exists r. split; [done|]. intros x Hx. apply Hclose; [done | lra].
Qed.

(** A step down of height at least [h] just below [b] rules continuity
    out. *)
Lemma step_discontinuous (h : Q) :
  (0 < b)%Q → (0 < h)%Q →
  (∀ x, (0 < x)%Q → (x < b)%Q → (f b + h <= f x)%Q) →
  ¬ continuous_at f b.
Proof.
  intros Hb Hh Hstep Hcont.
  destruct (Hcont h Hh) as (δ & Hδ & Hclose).
  assert (Hx : ∃ x, (0 < x)%Q ∧ (x < b)%Q ∧ (b - x < δ)%Q).
  { destruct (Qlt_le_dec b δ).
    - exists (b * (1 # 2))%Q. repeat split; lra.
    - exists (b - δ * (1 # 2))%Q. repeat split; lra. }
  destruct Hx as (x & Hx0 & Hxb & Hxδ).
  specialize (Hclose x). specialize (Hstep x Hx0 Hxb).
  assert (Hnear : (Qabs (x - b) < δ)%Q) by (apply Qabs_Qlt_condition; lra).
  apply Hclose, Qabs_Qlt_condition in Hnear. lra.
Qed.

End Continuity.

Lemma Qabs_scaled_le (k a c : Q) :
  (0 < k)%Q → (- c <= k * a)%Q → (k * a <= c)%Q → (k * Qabs a <= c)%Q.
Proof.
  intros Hk H1 H2. apply (Qabs_case a); intros; lra.
Qed.

(** Reduce a local bound at [b] to the two sides of [b], the absolute values
    gone. *)
Ltac local_bound x b Hx :=
  apply Qabs_Qlt_condition in Hx;
  destruct (Qlt_le_dec (x - b) 0);
  [ rewrite (Qabs_neg (x - b)) by lra | rewrite (Qabs_pos (x - b)) by lra ];
  (apply Qabs_scaled_le; [lra|..]).

(** The inverse of a size near 100 is bounded by its tangent. *)
Ltac scale_tangent x :=
  try (pose proof (Qinv_tangent 100 x); destruct (Qinv_large 100 x); [lra|lra|]);
  generalize dependent (/ x)%Q; intros; lra.

(** The scale of the generator is continuous at the boundaries 1.0, 10.0
    and 100.0 of its regimes. *)
Lemma PreviewGenerator_scale_continuous :
  continuous_at PreviewGenerator.calculateAdaptiveScale 1.0
  ∧ continuous_at PreviewGenerator.calculateAdaptiveScale 10.0
  ∧ continuous_at PreviewGenerator.calculateAdaptiveScale 100.0.
Proof.
  split; [|split].
  - apply (lipschitz_continuous _ _ (1 # 35) 0.5); [done..|]. intros x Hx.
    setoid_replace (PreviewGenerator.calculateAdaptiveScale 1.0) with 15%Q
      using relation Qeq by (vm_compute; reflexivity).
    local_bound x 1.0%Q Hx; scale_unfold; scale_tests; scale_arith; lra.
  - apply (lipschitz_continuous _ _ (1 # 2) 1); [done..|]. intros x Hx.
    setoid_replace (PreviewGenerator.calculateAdaptiveScale 10.0) with 3%Q
      using relation Qeq by (vm_compute; reflexivity).
    local_bound x 10.0%Q Hx; scale_unfold; scale_tests; scale_arith; lra.
  - apply (lipschitz_continuous _ _ 1 1); [done..|]. intros x Hx.
    setoid_replace (PreviewGenerator.calculateAdaptiveScale 100.0) with 1%Q
      using relation Qeq by (vm_compute; reflexivity).
    local_bound x 100.0%Q Hx; scale_unfold; scale_tests; scale_arith;
      try lra; scale_tangent x.
Qed.

(** The scale of the viewer is continuous at the boundaries 1.0, 10.0 and
    100.0 of its regimes. *)
Lemma Model3DViewer_scale_continuous :
  continuous_at Model3DViewer.calculateAdaptiveScale 1.0
  ∧ continuous_at Model3DViewer.calculateAdaptiveScale 10.0
  ∧ continuous_at Model3DViewer.calculateAdaptiveScale 100.0.
Proof.
  split; [|split].
  - apply (lipschitz_continuous _ _ (1 # 20) 0.5); [done..|]. intros x Hx.
    setoid_replace (Model3DViewer.calculateAdaptiveScale 1.0) with 10%Q
      using relation Qeq by (vm_compute; reflexivity).
    local_bound x 1.0%Q Hx; scale_unfold; scale_tests; scale_arith; lra.
  - apply (lipschitz_continuous _ _ 1 1); [done..|]. intros x Hx.
    setoid_replace (Model3DViewer.calculateAdaptiveScale 10.0) with 2%Q
      using relation Qeq by (vm_compute; reflexivity).
    local_bound x 10.0%Q Hx; scale_unfold; scale_tests; scale_arith; lra.
  - apply (lipschitz_continuous _ _ 1 1); [done..|]. intros x Hx.
    setoid_replace (Model3DViewer.calculateAdaptiveScale 100.0) with 0.8%Q
      using relation Qeq by (vm_compute; reflexivity).
    local_bound x 100.0%Q Hx; scale_unfold; scale_tests; scale_arith;
      try lra; scale_tangent x.
Qed.

(** Below 0.1 the scale is the fixed constant of the very-tiny regime. *)
Lemma PreviewGenerator_scale_tiny (x : Q) :
  (0 < x)%Q → (x < 0.1)%Q → (PreviewGenerator.calculateAdaptiveScale x == 50)%Q.
Proof. intros H0 H1. scale_unfold. scale_tests; scale_arith; lra. Qed.

Lemma Model3DViewer_scale_tiny (x : Q) :
  (0 < x)%Q → (x < 0.1)%Q → (Model3DViewer.calculateAdaptiveScale x == 30)%Q.
Proof. intros H0 H1. scale_unfold. scale_tests; scale_arith; lra. Qed.

(** ** Claims about the adaptive scale *)

(** C3, evaluated at the boundary 0.1.  In both variants the scale just below
    0.1 is the very-tiny constant (50, resp. 30) and at 0.1 itself it is the
    start of the interpolation (46.5, resp. 28): there is a jump, and the
    function is not continuous at 0.1. *)
Theorem C3_jump_at_one_tenth :
  ((PreviewGenerator.calculateAdaptiveScale 0.0999 == 50)%Q
   ∧ (PreviewGenerator.calculateAdaptiveScale 0.1 == 46.5)%Q
   ∧ ¬ continuous_at PreviewGenerator.calculateAdaptiveScale 0.1)
  ∧ ((Model3DViewer.calculateAdaptiveScale 0.0999 == 30)%Q
     ∧ (Model3DViewer.calculateAdaptiveScale 0.1 == 28)%Q
     ∧ ¬ continuous_at Model3DViewer.calculateAdaptiveScale 0.1).
Proof.
  split; (split; [vm_compute; reflexivity|]); (split; [vm_compute; reflexivity|]).
  - apply (step_discontinuous _ _ 3); [done..|]. intros x H0 H1.
    rewrite (PreviewGenerator_scale_tiny x H0 H1).
    setoid_replace (PreviewGenerator.calculateAdaptiveScale 0.1) with 46.5%Q
      using relation Qeq by (vm_compute; reflexivity).
    lra.
  - apply (step_discontinuous _ _ 1); [done..|]. intros x H0 H1.
    rewrite (Model3DViewer_scale_tiny x H0 H1).
    setoid_replace (Model3DViewer.calculateAdaptiveScale 0.1) with 28%Q
      using relation Qeq by (vm_compute; reflexivity).
    lra.
Qed.

(** Two finite numbers are compared, and their maximum and quotient taken,
    as rationals. *)
Lemma JSNumber_max_Finite (a b : Q) :
  JSNumber.max (JSNumber.Finite a) (JSNumber.Finite b) = JSNumber.Finite (Math.max a b).
Proof. unfold JSNumber.max, Math.max. cbn [JSNumber.leb]. by destruct (Qle_bool a b). Qed.

Lemma JSNumber_div_Finite (a b : Q) :
  ¬ (b == 0)%Q →
  JSNumber.div (JSNumber.Finite a) (JSNumber.Finite b) = JSNumber.Finite (a / b).
Proof.
  intros H. unfold JSNumber.div. destruct (Qeq_bool b 0) eqn:E; [|done].
  by apply Qeq_bool_iff in E.
Qed.

(** The tests of the function on numbers, at a finite size. *)
Ltac finite_tests :=
  repeat match goal with
         | |- context [JSNumber.ltb (JSNumber.Finite ?a) (JSNumber.Finite ?b)] =>
             change (JSNumber.ltb (JSNumber.Finite a) (JSNumber.Finite b))
               with (Math.ltb a b)
         | |- context [JSNumber.leb (JSNumber.Finite ?a) (JSNumber.Finite ?b)] =>
             change (JSNumber.leb (JSNumber.Finite a) (JSNumber.Finite b))
               with (Qle_bool a b)
         end.

(** On a finite size the functions on numbers are the functions over the
    rationals. *)
Lemma PreviewGenerator_scale_number_Finite (modelSize : Q) :
  PreviewGenerator.calculateAdaptiveScale_number (JSNumber.Finite modelSize)
  = JSNumber.Finite (PreviewGenerator.calculateAdaptiveScale modelSize).
Proof.
  unfold PreviewGenerator.calculateAdaptiveScale_number,
    PreviewGenerator.calculateAdaptiveScale.
  cbv zeta. finite_tests.
  destruct (Qle_bool modelSize 0); [done|].
  rewrite <-JSNumber_max_Finite. f_equal.
  destruct (Math.ltb modelSize 0.1); [done|].
  destruct (Math.ltb modelSize 1.0); [done|].
  destruct (Math.ltb modelSize 10.0); [done|].
  destruct (Math.ltb modelSize 100.0) eqn:H; [done|].
  rewrite <-JSNumber_max_Finite. f_equal. apply JSNumber_div_Finite.
  unfold Math.ltb in H. apply negb_false_iff, Qle_bool_iff in H. lra.
Qed.

Lemma Model3DViewer_scale_number_Finite (modelSize : Q) :
  Model3DViewer.calculateAdaptiveScale_number (JSNumber.Finite modelSize)
  = JSNumber.Finite (Model3DViewer.calculateAdaptiveScale modelSize).
Proof.
  unfold Model3DViewer.calculateAdaptiveScale_number,
    Model3DViewer.calculateAdaptiveScale.
  cbv zeta. finite_tests.
  destruct (Qle_bool modelSize 0); [done|].
  rewrite <-JSNumber_max_Finite. f_equal.
  destruct (Math.ltb modelSize 0.1); [done|].
  destruct (Math.ltb modelSize 1.0); [done|].
  destruct (Math.ltb modelSize 10.0); [done|].
  destruct (Math.ltb modelSize 100.0) eqn:H; [done|].
  rewrite <-JSNumber_max_Finite. f_equal. apply JSNumber_div_Finite.
  unfold Math.ltb in H. apply negb_false_iff, Qle_bool_iff in H. lra.
Qed.

(** C8, as the code has it.  On [NaN] both variants return [NaN], which is
    neither at least the floor nor positive: no comparison with [NaN] holds. *)
Lemma C8_counterexample :
  PreviewGenerator.calculateAdaptiveScale_number JSNumber.NaN = JSNumber.NaN
  ∧ JSNumber.leb (JSNumber.Finite 0.5)
      (PreviewGenerator.calculateAdaptiveScale_number JSNumber.NaN) = false
  ∧ JSNumber.ltb (JSNumber.Finite 0)
      (PreviewGenerator.calculateAdaptiveScale_number JSNumber.NaN) = false
  ∧ Model3DViewer.calculateAdaptiveScale_number JSNumber.NaN = JSNumber.NaN
  ∧ JSNumber.leb (JSNumber.Finite 0.3)
      (Model3DViewer.calculateAdaptiveScale_number JSNumber.NaN) = false
  ∧ JSNumber.ltb (JSNumber.Finite 0)
      (Model3DViewer.calculateAdaptiveScale_number JSNumber.NaN) = false.
Proof. repeat split; reflexivity. Qed.

(** C8, amended.  Both variants are total.  On every number other than
    [NaN], the two infinities included: a size that is zero or negative gives
    the fixed fallback (3, resp. 2), and the result is a finite number, at
    least the floor of the variant (0.5, resp. 0.3), hence positive.  The
    floor comes from the last [Math.max] and the tests alone: it does not
    depend on the arithmetic on finite values being exact. *)
Theorem C8_scale_floored_unless_NaN (modelSize : JSNumber.number) :
  modelSize ≠ JSNumber.NaN →
  (JSNumber.leb modelSize (JSNumber.Finite 0) = true →
     PreviewGenerator.calculateAdaptiveScale_number modelSize = JSNumber.Finite 3.0
     ∧ Model3DViewer.calculateAdaptiveScale_number modelSize = JSNumber.Finite 2.0)
  ∧ (∃ scale : Q,
       PreviewGenerator.calculateAdaptiveScale_number modelSize = JSNumber.Finite scale
       ∧ (0.5 <= scale)%Q ∧ (0 < scale)%Q)
  ∧ (∃ scale : Q,
       Model3DViewer.calculateAdaptiveScale_number modelSize = JSNumber.Finite scale
       ∧ (0.3 <= scale)%Q ∧ (0 < scale)%Q).
Proof.
  intros HNaN. split; [|split].
  - intros H. unfold PreviewGenerator.calculateAdaptiveScale_number,
      Model3DViewer.calculateAdaptiveScale_number. cbv zeta. by rewrite H.
  - destruct modelSize as [|[|]|size]; [done| | |].
    + exists 3.0%Q. split; [reflexivity|]. split; lra.
    + exists 0.5%Q. split; [vm_compute; reflexivity|]. split; lra.
    + exists (PreviewGenerator.calculateAdaptiveScale size).
      split; [apply PreviewGenerator_scale_number_Finite|].
      assert (H : (0.5 <= PreviewGenerator.calculateAdaptiveScale size)%Q).
      { scale_unfold. scale_tests; scale_arith; lra. }
      split; lra.
  - destruct modelSize as [|[|]|size]; [done| | |].
    + exists 2.0%Q. split; [reflexivity|]. split; lra.
    + exists 0.3%Q. split; [vm_compute; reflexivity|]. split; lra.
    + exists (Model3DViewer.calculateAdaptiveScale size).
      split; [apply Model3DViewer_scale_number_Finite|].
      assert (H : (0.3 <= Model3DViewer.calculateAdaptiveScale size)%Q).
      { scale_unfold. scale_tests; scale_arith; lra. }
      split; lra.
Qed.

Lemma C8_scale_floored_unless_NaN_witness :
  (PreviewGenerator.calculateAdaptiveScale_number (JSNumber.Finite (-2))
     = JSNumber.Finite 3.0
   ∧ Model3DViewer.calculateAdaptiveScale_number (JSNumber.Finite (-2))
     = JSNumber.Finite 2.0)
  ∧ (∃ scale : Q,
       PreviewGenerator.calculateAdaptiveScale_number (JSNumber.Infinity false)
         = JSNumber.Finite scale
       ∧ (0.5 <= scale)%Q ∧ (0 < scale)%Q).
Proof.
  split.
  - apply (C8_scale_floored_unless_NaN (JSNumber.Finite (-2))); [discriminate | reflexivity].
  - apply (C8_scale_floored_unless_NaN (JSNumber.Infinity false)). discriminate.
Defined.

(** ** Claims about the preview cache and the hook *)

Import UseModelPreview.

Lemma isCacheValid_fresh (now : Z) (c : cacheData) :
  timestamp c ≠ 0%Z → dataUrl c ≠ EmptyString →
  isCacheValid now c = bool_decide (now < timestamp c + seven_days)%Z.
Proof.
  intros Ht Hd. unfold isCacheValid.
  destruct (Z.eqb_spec (timestamp c) 0) as [|_]; [done|].
  destruct (dataUrl c) as [|ch d]; [done|]. simpl.
  change (CACHE_EXPIRY_DAYS * 24 * 60 * 60 * 1000)%Z with seven_days.
  destruct (Z.ltb_spec (now - timestamp c) seven_days);
    [rewrite bool_decide_eq_true_2 | rewrite bool_decide_eq_false_2]; (done || lia).
Qed.

Lemma isCacheValid_stale (now : Z) (c : cacheData) :
  (timestamp c + seven_days ≤ now)%Z → isCacheValid now c = false.
Proof.
  intros H. unfold isCacheValid.
  destruct ((timestamp c =? 0)%Z || (String.length (dataUrl c) =? 0)%nat); [done|].
  change (CACHE_EXPIRY_DAYS * 24 * 60 * 60 * 1000)%Z with seven_days.
  apply Z.ltb_ge. lia.
Qed.

(** C4.  An entry written at time [t] (a non-zero [Date.now()]) with a
    non-empty image [img] is returned unchanged, and the store left as it is,
    by a lookup of the same key at any time before [t] plus seven days; a
    lookup at or after that time returns nothing and removes the entry. *)
Theorem C4_cache_entry_lifetime (p : props) (img : string) (t t' : Z)
    (store : gmap string cacheData) :
  let written := saveToCache p img t store in
  (t ≠ 0%Z → img ≠ EmptyString → (t' < t + seven_days)%Z →
     loadFromCache p t' written = (Some img, written))
  ∧ ((t + seven_days ≤ t')%Z →
       loadFromCache p t' written = (None, delete (getCacheKey p) written)
       ∧ delete (getCacheKey p) written !! getCacheKey p = None).
Proof.
  cbv zeta. unfold loadFromCache, saveToCache. rewrite lookup_insert_eq. split.
  - intros Ht Himg Hfresh. rewrite isCacheValid_fresh by done. simpl.
    by rewrite bool_decide_eq_true_2.
  - intros Hstale. rewrite isCacheValid_stale by done.
    by rewrite lookup_delete_eq.
Qed.

Lemma C4_cache_entry_lifetime_witness :
  let p := mkProps "/models/cube.stl" (Some "1_cube.stl") None in
  let written := saveToCache p "data:image/png;base64,iVBORw0KGgo" 1700000000000 ∅ in
  loadFromCache p (1700000000000 + seven_days - 1) written
    = (Some "data:image/png;base64,iVBORw0KGgo", written)
  ∧ loadFromCache p (1700000000000 + seven_days) written
    = (None, delete (getCacheKey p) written).
Proof.
  cbv zeta. split.
  - apply (C4_cache_entry_lifetime _ _ 1700000000000 _ ∅); [done | done | lia].
  - apply (C4_cache_entry_lifetime _ _ 1700000000000 _ ∅). lia.
Defined.

(** C10, as the code has it.  When the access to the storage throws,
    [clearCache] does not reset the published preview: the slot keeps
    showing the image. *)
Lemma C10_counterexample :
  let p := mkProps "/models/cube.stl" (Some "1_cube.stl") None in
  let st := mkState (Some "data:image/png;base64,BBBB") false None in
  removeItem (getCacheKey p) None = None
  ∧ clearCache p st None = (st, None)
  ∧ previewUrl (clearCache p st None).1 = Some "data:image/png;base64,BBBB".
Proof. repeat split; reflexivity. Qed.

(** C10, amended.  On a storage that can be accessed, [clearCache] leaves
    the storage without an entry under the key of its own slot and with
    every other key as it was, and resets the published preview of the slot
    to absent.  When the access to the storage throws, the state of the hook
    and the storage are left as they are.  In both cases the other two state
    cells are unchanged. *)
Theorem C10_clearCache_frame (p : props) (st : state)
    (storage : option (gmap string cacheData)) :
  let after := clearCache p st storage in
  (∀ entries, storage = Some entries →
     ∃ entries',
       after.2 = Some entries'
       ∧ entries' !! getCacheKey p = None
       ∧ (∀ k, k ≠ getCacheKey p → entries' !! k = entries !! k)
       ∧ previewUrl after.1 = None)
  ∧ (storage = None → after = (st, None))
  ∧ isGenerating after.1 = isGenerating st
  ∧ error after.1 = error st.
Proof.
  cbv zeta. unfold clearCache, removeItem. destruct storage as [entries|]; simpl.
  - split; [|by repeat split]. intros ? [= <-]. exists (delete (getCacheKey p) entries).
    split; [done|]. split; [apply lookup_delete_eq|]. split; [|done].
    intros k Hk. by rewrite lookup_delete_ne.
  - by repeat split.
Qed.

Lemma C10_clearCache_frame_witness :
  let p := mkProps "/models/cube.stl" (Some "1_cube.stl") None in
  let st := mkState (Some "data:image/png;base64,BBBB") false None in
  let c := mkCacheData "data:image/png;base64,AAAA" 1700000000000 "/models/gear.stl" None in
  let d := mkCacheData "data:image/png;base64,BBBB" 1700000000000 "/models/cube.stl" None in
  let entries : gmap string cacheData :=
    <[getCacheKey p := d]> (<["model_preview_other" := c]> ∅) in
  ∃ entries',
    (clearCache p st (Some entries)).2 = Some entries'
    ∧ entries' !! getCacheKey p = None
    ∧ entries' !! "model_preview_other" = Some c
    ∧ previewUrl (clearCache p st (Some entries)).1 = None.
Proof.
  cbv zeta.
  destruct (C10_clearCache_frame (mkProps "/models/cube.stl" (Some "1_cube.stl") None)
              (mkState (Some "data:image/png;base64,BBBB") false None)
              (Some (<[getCacheKey (mkProps "/models/cube.stl" (Some "1_cube.stl") None)
                       := mkCacheData "data:image/png;base64,BBBB" 1700000000000
                            "/models/cube.stl" None]>
                       (<["model_preview_other"
                          := mkCacheData "data:image/png;base64,AAAA" 1700000000000
                               "/models/gear.stl" None]> ∅)))) as [H _].
  destruct (H _ eq_refl) as (entries' & E & Hown & Hother & Hurl).
  exists entries'. split; [exact E|]. split; [exact Hown|]. split; [|exact Hurl].
  rewrite Hother.
  - rewrite lookup_insert_ne; [apply lookup_insert_eq|].
    intros Heq. vm_compute in Heq. discriminate Heq.
  - intros Heq. vm_compute in Heq. discriminate Heq.
Defined.

Lemma generateModelPreview_failure (env : PreviewGenerator.browser) (url : string) :
  preview_failure env url →
  validated (PreviewGenerator.generateModelPreview env url) = Throw
    match PreviewGenerator.generateModelPreview env url with
    | Throw e => e
    | Ok _ => Error "Generated preview appears to be invalid or too short"
    end.
Proof.
  unfold PreviewGenerator.generateModelPreview, PreviewGenerator.generatePreview,
    PreviewGenerator.loadSTL, validated.
  intros [e Hf | data e Hf Hp | data g e Hf Hp Hr | data g d Hf Hp Hr Hlen];
    rewrite Hf; cbn [mbind result_bind]; [done|..];
    rewrite Hp; cbn [mbind result_bind]; [done|..];
    rewrite Hr; cbn [mbind result_bind]; [done|].
  destruct (String.length d =? 0)%nat eqn:E0; cbn [orb mbind result_bind]; [done|].
  destruct (String.length d <? 100)%nat eqn:E1; cbn [mbind result_bind]; [done|].
  rewrite E0. cbn [negb andb].
  by rewrite (proj2 (Nat.ltb_ge 100 (String.length d)) Hlen).
Qed.

(** The outcome of the generator, stage by stage. *)
Lemma generateModelPreview_stages (env : PreviewGenerator.browser) (url : string) :
  let outcome := PreviewGenerator.generateModelPreview env url in
  (∀ e, PreviewGenerator.FileLoader_load env url = Throw e → outcome = Throw e)
  ∧ (∀ data e,
       PreviewGenerator.FileLoader_load env url = Ok data →
       parseSTL data = Throw e → outcome = Throw e)
  ∧ (∀ data g e,
       PreviewGenerator.FileLoader_load env url = Ok data →
       parseSTL data = Ok g →
       PreviewGenerator.render_toDataURL env g = Throw e → outcome = Throw e)
  ∧ (∀ data g dataURL,
       PreviewGenerator.FileLoader_load env url = Ok data →
       parseSTL data = Ok g →
       PreviewGenerator.render_toDataURL env g = Ok dataURL →
       ((String.length dataURL < 100)%nat →
          outcome = Throw (Error "Generated preview is invalid"))
       ∧ ((100 ≤ String.length dataURL)%nat → outcome = Ok dataURL)).
Proof.
  cbv zeta. unfold PreviewGenerator.generateModelPreview, PreviewGenerator.generatePreview,
    PreviewGenerator.loadSTL.
  split; [|split; [|split]].
  - intros e ->. done.
  - intros data e -> H. cbn [mbind result_bind]. by rewrite H.
  - intros data g e -> H1 H2. cbn [mbind result_bind]. rewrite H1.
    cbn [mbind result_bind]. by rewrite H2.
  - intros data g d -> H1 H2. cbn [mbind result_bind]. rewrite H1.
    cbn [mbind result_bind]. rewrite H2. cbn [mbind result_bind]. split; intros Hlen.
    + rewrite (proj2 (Nat.ltb_lt _ _) Hlen). by rewrite orb_true_r.
    + rewrite (proj2 (Nat.ltb_ge _ _) Hlen).
      destruct (String.length d =? 0)%nat eqn:E; [|done].
      apply Nat.eqb_eq in E. lia.
Qed.

(** C7, amended.  When a preview request fails at the fetch, the parse, the
    render or the validation of the image, the hook leaves the cache as it
    was, ends the generation, keeps the preview it had, and publishes a
    message in its [error] cell: the message of the [Error] the generator
    threw, a fixed text for a thrown value that is no [Error], and the text
    of its own validation for an image the generator let through.  The
    generator passes on what the fetch, the parser or the renderer threw,
    refuses an image shorter than 100 characters with its own message, and
    lets one of 100 characters through to the validation of the hook. *)
Theorem C7_failure_publishes_message (env : PreviewGenerator.browser) (p : props)
    (now : Z) (w : world) :
  preview_failure env (modelUrl p) →
  let outcome := PreviewGenerator.generateModelPreview env (modelUrl p) in
  let w' := generatePreview_settle p outcome now w in
  (localStorage w' = localStorage w
   ∧ isGenerating (hook w') = false
   ∧ previewUrl (hook w') = previewUrl (hook w)
   ∧ is_Some (error (hook w')))
  ∧ ((∀ message, outcome = Throw (Error message) → error (hook w') = Some message)
     ∧ (outcome = Throw NotAnError → error (hook w') = Some "Failed to generate preview")
     ∧ (∀ dataURL, outcome = Ok dataURL →
          error (hook w') = Some "Generated preview appears to be invalid or too short"))
  ∧ ((∀ e, PreviewGenerator.FileLoader_load env (modelUrl p) = Throw e → outcome = Throw e)
     ∧ (∀ data e,
          PreviewGenerator.FileLoader_load env (modelUrl p) = Ok data →
          parseSTL data = Throw e → outcome = Throw e)
     ∧ (∀ data g e,
          PreviewGenerator.FileLoader_load env (modelUrl p) = Ok data →
          parseSTL data = Ok g →
          PreviewGenerator.render_toDataURL env g = Throw e → outcome = Throw e)
     ∧ (∀ data g dataURL,
          PreviewGenerator.FileLoader_load env (modelUrl p) = Ok data →
          parseSTL data = Ok g →
          PreviewGenerator.render_toDataURL env g = Ok dataURL →
          ((String.length dataURL < 100)%nat →
             outcome = Throw (Error "Generated preview is invalid"))
          ∧ ((100 ≤ String.length dataURL)%nat → outcome = Ok dataURL))).
Proof.
  intros Hfail. cbv zeta. split; [|split; [|apply generateModelPreview_stages]].
  - unfold generatePreview_settle.
    rewrite (generateModelPreview_failure env (modelUrl p) Hfail). by simpl.
  - unfold generatePreview_settle.
    rewrite (generateModelPreview_failure env (modelUrl p) Hfail).
    split; [|split].
    + by intros message ->.
    + by intros ->.
    + by intros dataURL ->.
Qed.

(** C7, as the code has it.  The error is a message, not a typed error: a
    fetch that fails and a render that fails, each with a value that is no
    [Error], leave the hook in the same state, so the caller cannot tell the
    stage. *)
Lemma C7_counterexample :
  let p := mkProps "/models/cube.stl" None None in
  let w := mkWorld (mkState None true None) ∅ 1 in
  let unreachable := PreviewGenerator.mkBrowser (λ _, Throw NotAnError) (λ _, Ok EmptyString) in
  let no_context :=
    PreviewGenerator.mkBrowser (λ _, Ok one_facet_ascii) (λ _, Throw NotAnError) in
  let settle env :=
    generatePreview_settle p (PreviewGenerator.generateModelPreview env (modelUrl p))
      1700000000000 w in
  PreviewGenerator.FileLoader_load unreachable (modelUrl p) = Throw NotAnError
  ∧ (∃ g, PreviewGenerator.loadSTL no_context (modelUrl p) = Ok g
          ∧ PreviewGenerator.render_toDataURL no_context g = Throw NotAnError)
  ∧ settle unreachable = settle no_context
  ∧ error (hook (settle unreachable)) = Some "Failed to generate preview".
Proof.
  cbv zeta. split; [reflexivity|]. split; [|split; reflexivity].
  eexists. split; [vm_compute; reflexivity | reflexivity].
Qed.

Lemma C7_failure_publishes_message_witness :
  let env := PreviewGenerator.mkBrowser (λ _, Ok twelve_bytes) (λ _, Ok EmptyString) in
  let p := mkProps "/models/broken.stl" None None in
  let w := mkWorld (mkState None true None) ∅ 1 in
  let w' := generatePreview_settle p
              (PreviewGenerator.generateModelPreview env (modelUrl p)) 1700000000000 w in
  localStorage w' = ∅ ∧ isGenerating (hook w') = false ∧ is_Some (error (hook w')).
Proof.
  cbv zeta.
  destruct (C7_failure_publishes_message
              (PreviewGenerator.mkBrowser (λ _, Ok twelve_bytes) (λ _, Ok EmptyString))
              (mkProps "/models/broken.stl" None None) 1700000000000
              (mkWorld (mkState None true None) ∅ 1)) as ((Hstore & Hgen & _ & Herr) & _).
  - apply (parse_fails _ _ twelve_bytes RangeError); reflexivity.
  - split; [exact Hstore|]. split; [exact Hgen | exact Herr].
Defined.

(** The guard of [generatePreview] works for a callback created by a render
    that has seen the generation start. *)
Lemma generatePreview_guarded (st : state) (p : props) (w : world) :
  isGenerating st = true → render_generatePreview st p w = (w, false).
Proof.
  intros H. unfold render_generatePreview, generatePreview_call. by rewrite H.
Qed.

(** C6, evaluated on two calls of one callback.  The callback created by a
    render with [isGenerating = false] starts a render session each time it
    is called: the second call, made while the first request is in flight,
    starts a second session. *)
Theorem C6_same_callback_starts_twice (st : state) (p : props) (w : world) :
  isGenerating st = false → modelUrl p ≠ EmptyString →
  let callback := render_generatePreview st in
  let first := callback p w in
  let second := callback p first.1 in
  first.2 = true
  ∧ isGenerating (hook first.1) = true
  ∧ second.2 = true
  ∧ sessions second.1 = S (S (sessions w)).
Proof.
  intros Hgen Hurl. cbv zeta.
  unfold render_generatePreview, generatePreview_call. rewrite Hgen.
  destruct (modelUrl p) as [|c u]; [done|]. simpl. done.
Qed.

Lemma C6_same_callback_starts_twice_witness :
  let st := mkState None false None in
  let p := mkProps "/models/cube.stl" (Some "1_cube.stl") None in
  let w := mkWorld st ∅ 0 in
  let callback := render_generatePreview st in
  sessions (callback p (callback p w).1).1 = 2%nat.
Proof.
  cbv zeta.
  destruct (C6_same_callback_starts_twice (mkState None false None)
              (mkProps "/models/cube.stl" (Some "1_cube.stl") None)
              (mkWorld (mkState None false None) ∅ 0)) as (_ & _ & _ & H).
  - reflexivity.
  - simpl. discriminate.
  - exact H.
Defined.

(** ** The cache key is injective *)




(** *** Numbers *)

Lemma pretty_N_char_num (x : N) : num_char (pretty_N_char x) = true.
Proof. unfold pretty_N_char. by repeat case_match. Qed.

Lemma pretty_N_go_num (x : N) (s : string) :
  all_num s = true → s ≠ EmptyString →
  all_num (pretty_N_go x s) = true ∧ pretty_N_go x s ≠ EmptyString.
Proof.
  revert s. induction (N.lt_wf_0 x) as [x _ IH]; intros s Hs Hne.
  destruct (decide (x = 0%N)) as [->|Hx]; [by rewrite pretty_N_go_0|].
  rewrite pretty_N_go_step by lia. apply IH.
  - apply N.div_lt; lia.
  - simpl. by rewrite pretty_N_char_num.
  - done.
Qed.

Lemma pretty_positive_num (x : positive) :
  all_num (pretty x) = true ∧ pretty x ≠ EmptyString.
Proof.
  unfold pretty, pretty_positive, pretty, pretty_N.
  rewrite decide_False by done. rewrite pretty_N_go_step by lia.
  apply pretty_N_go_num; [|done]. simpl. by rewrite pretty_N_char_num.
Qed.

Lemma pretty_Z_num (n : Z) : all_num (pretty n) = true ∧ pretty n ≠ EmptyString.
Proof.
  destruct n as [|x|x]; unfold pretty, pretty_Z; [done|apply pretty_positive_num|].
  destruct (pretty_positive_num x) as [H _]. simpl. by rewrite H.
Qed.

(** The decimal text of an integer is the text of a number. *)
Lemma integer_numeral (n : Z) : numeral (pretty n) = true.
Proof.
  destruct (pretty_Z_num n) as [Hall Hne]. unfold numeral. rewrite Hall.
  by destruct (pretty n).
Qed.

Lemma integer_inj (n1 n2 : Z) : JSON.integer n1 = JSON.integer n2 → n1 = n2.
Proof. unfold JSON.integer. intros [= H]. by apply (inj pretty). Qed.




(** *** String literals *)






#[local] Arguments JSON.quote : simpl never.

(** *** Documents *)














(** *** Base 64 *)










Lemma latin1_all (s : string) : latin1 s = true.
Proof.
  unfold latin1. apply forallb_forall. intros c _.
  apply N.ltb_lt, N_ascii_bounded.
Qed.

(** In the embedding every code unit is below 256, so [btoa] never throws
    and the key is the prefix followed by the base-64 text. *)
Lemma getCacheKey_base64 (p : props) :
  getCacheKey p = CACHE_PREFIX +:+ base64 (JSON.stringify (keyData p)).
Proof. unfold getCacheKey, btoa. by rewrite latin1_all. Qed.










(** ** Further properties of the code *)

(** Scenario B: the one-facet ASCII file parses to three positions and three
    copies of the normal (0, 0, 1). *)
Lemma one_facet_ascii_parses :
  let token s := ParsedFloat (Some s) in
  parseSTL one_facet_ascii
  = Ok (mkGeometry
          [token "0"; token "0"; token "0";
           token "1"; token "0"; token "0";
           token "0"; token "1"; token "0"]
          [token "0"; token "0"; token "1";
           token "0"; token "0"; token "1";
           token "0"; token "0"; token "1"]).
Proof. vm_compute. reflexivity. Qed.

Lemma PreviewGenerator_scale_non_increasing_witness :
  (PreviewGenerator.calculateAdaptiveScale 250
   <= PreviewGenerator.calculateAdaptiveScale 0.05)%Q.
Proof. apply PreviewGenerator_scale_non_increasing; done. Defined.

Lemma Model3DViewer_scale_non_increasing_witness :
  (Model3DViewer.calculateAdaptiveScale 250
   <= Model3DViewer.calculateAdaptiveScale 0.05)%Q.
Proof. apply Model3DViewer_scale_non_increasing; done. Defined.

(** Scenario C: a size in the medium regime, from 1 up to 10, gets a scale
    between the bound of the large regime and the bound of the small regime,
    the bounds included. *)
Lemma medium_regime_scale (modelSize : Q) :
  (1 <= modelSize)%Q → (modelSize < 10)%Q →
  (3 <= PreviewGenerator.calculateAdaptiveScale modelSize)%Q
  ∧ (PreviewGenerator.calculateAdaptiveScale modelSize <= 15)%Q
  ∧ (2 <= Model3DViewer.calculateAdaptiveScale modelSize)%Q
  ∧ (Model3DViewer.calculateAdaptiveScale modelSize <= 10)%Q.
Proof.
  intros H1 H10. repeat split; scale_unfold; scale_tests; scale_arith; lra.
Qed.

Lemma medium_regime_scale_witness :
  (3 <= PreviewGenerator.calculateAdaptiveScale 2.0)%Q
  ∧ (PreviewGenerator.calculateAdaptiveScale 2.0 <= 15)%Q
  ∧ (2 <= Model3DViewer.calculateAdaptiveScale 2.0)%Q
  ∧ (Model3DViewer.calculateAdaptiveScale 2.0 <= 10)%Q.
Proof. apply (medium_regime_scale 2.0); done. Defined.

(** A request that resolves with a data URL of more than 100 characters
    publishes it and stores it under the key of the slot, stamped with the
    current time. *)
Lemma success_is_cached (p : props) (url : string) (now : Z) (w : world) :
  (100 < String.length url)%nat →
  let w' := generatePreview_settle p (Ok url) now w in
  previewUrl (hook w') = Some url
  ∧ isGenerating (hook w') = false
  ∧ localStorage w' !! getCacheKey p
    = Some (mkCacheData url now (modelUrl p) (previewOptions p)).
Proof.
  intros Hlen. cbv zeta. unfold generatePreview_settle, validated.
  cbn [mbind result_bind].
  destruct (String.length url) as [|n] eqn:E; [lia|]. cbn [Nat.eqb negb andb].
  rewrite (proj2 (Nat.ltb_lt 100 (S n)) Hlen). simpl.
  repeat split; []. unfold saveToCache. apply lookup_insert_eq.
Qed.

Lemma success_is_cached_witness :
  let p := mkProps "/models/cube.stl" (Some "1_cube.stl") None in
  let url := "data:image/png;base64," +:+ base64 (String.concat "" (replicate 30 "cube")) in
  previewUrl (hook (generatePreview_settle p (Ok url) 1700000000000
                      (mkWorld (mkState None true None) ∅ 1))) = Some url.
Proof.
  cbv zeta. apply success_is_cached. vm_compute. lia.
Defined.

Lemma generatePreview_guarded_witness :
  let p := mkProps "/models/cube.stl" (Some "1_cube.stl") None in
  let w := mkWorld (mkState None false None) ∅ 0 in
  let first := render_generatePreview (hook w) p w in
  render_generatePreview (hook first.1) p first.1 = (first.1, false).
Proof. cbv zeta. apply generatePreview_guarded. reflexivity. Defined.

(** [saveToCache] overwrites: of two writes under one key the later one is
    what the store holds. *)
Lemma saveToCache_overwrites (p : props) (first second : string) (t1 t2 : Z)
    (store : gmap string cacheData) :
  saveToCache p second t2 (saveToCache p first t1 store) = saveToCache p second t2 store.
Proof. unfold saveToCache. apply insert_insert_eq. Qed.

(** A lookup that finds nothing under the key returns nothing and leaves the
    store as it is. *)
Lemma loadFromCache_miss (p : props) (now : Z) (store : gmap string cacheData) :
  store !! getCacheKey p = None → loadFromCache p now store = (None, store).
Proof. intros H. unfold loadFromCache. by rewrite H. Qed.

Lemma loadFromCache_miss_witness :
  loadFromCache (mkProps "/models/cube.stl" None None) 1700000000000 ∅ = (None, ∅).
Proof. apply loadFromCache_miss. apply lookup_empty. Defined.

(** ** The layout of a binary file *)

Import BinaryLayout AsciiLayout.

Lemma parseBinary_faces_layout reader todo offset vs ns :
  (todo = 0%nat ∨ offset + 50 * Z.of_nat todo - 2 ≤ byteLength reader)%Z →
  parseBinary_faces reader todo offset vs ns
  = Ok (vs ++ positions_from reader offset todo, ns ++ normals_from reader offset todo).
Proof.
  revert offset vs ns. induction todo as [|todo IH]; intros offset vs ns H.
  - simpl. by rewrite !app_nil_r.
  - destruct H as [H|H]; [discriminate|].
    rewrite parseBinary_faces_S.
    rewrite !getFloat32_Ok by lia. cbn [mbind result_bind].
    simpl parseBinary_vertices.
    rewrite !getFloat32_Ok by lia. cbn [mbind result_bind].
    rewrite IH by (destruct todo; [by left | right; lia]).
    simpl positions_from. simpl normals_from.
    unfold record_positions, record_normals, triple_at, float_at.
    rewrite <-!app_assoc. simpl.
    replace (offset + 12 + 12 + 12 + 12 + 2)%Z with (offset + 50)%Z by lia.
    replace (offset + 12 + 12 + 4)%Z with (offset + 24 + 4)%Z by lia.
    replace (offset + 12 + 12 + 8)%Z with (offset + 24 + 8)%Z by lia.
    replace (offset + 12 + 12 + 12 + 4)%Z with (offset + 36 + 4)%Z by lia.
    replace (offset + 12 + 12 + 12 + 8)%Z with (offset + 36 + 8)%Z by lia.
    replace (offset + 12 + 12 + 12)%Z with (offset + 36)%Z by lia.
    replace (offset + 12 + 12)%Z with (offset + 24)%Z by lia.
    reflexivity.
Qed.

Lemma not_truncated_bounds data :
  ¬ binary_truncated data →
  (84 ≤ byteLength data)%Z
  ∧ (Z.to_nat (declared_faces data) = 0%nat
     ∨ 84 + 50 * Z.of_nat (Z.to_nat (declared_faces data)) - 2 ≤ byteLength data)%Z.
Proof.
  unfold binary_truncated, declared_faces.
  generalize (word32_nonneg data 80). generalize (word32 data 80).
  intros faces Hn H.
  assert (Hlen : (84 ≤ byteLength data)%Z).
  { apply Z.nlt_ge. intros Hc. apply H. by left. }
  split; [done|].
  destruct (decide (faces = 0%Z)) as [->|]; [by left | right].
  rewrite Z2Nat.id by done. apply Z.nlt_ge. intros Hc.
  apply H. right. split; lia.
Qed.

Lemma parseBinary_records (data : ArrayBuffer) :
  ¬ binary_truncated data →
  parseBinary data
  = Ok (mkGeometry (positions_from data 84 (Z.to_nat (declared_faces data)))
                   (normals_from data 84 (Z.to_nat (declared_faces data)))).
Proof.
  intros H. destruct (not_truncated_bounds data H) as [Hlen Hrec].
  unfold parseBinary, getUint32.
  rewrite (proj2 (Z.leb_le _ _)) by lia. rewrite bind_Ok.
  fold (declared_faces data).
  by rewrite parseBinary_faces_layout.
Qed.

(** The binary layout, bit for bit.  A binary-classified input that is not
    truncated parses to the numbers of its records in file order: the
    positions are the nine numbers that follow the normal of each 50-byte
    record, and the normals are the normal of each record three times over,
    as many records as the count at offset 80 declares, from offset 84 on. *)
Theorem binary_layout (data : ArrayBuffer) :
  isASCII data = false → ¬ binary_truncated data →
  parseSTL data
  = Ok (mkGeometry (positions_from data 84 (Z.to_nat (declared_faces data)))
                   (normals_from data 84 (Z.to_nat (declared_faces data)))).
Proof.
  intros Hbin H. unfold parseSTL. rewrite Hbin. by apply parseBinary_records.
Qed.

Lemma binary_layout_witness :
  parseSTL without_attribute_bytes
  = Ok (mkGeometry
          (positions_from without_attribute_bytes 84
             (Z.to_nat (declared_faces without_attribute_bytes)))
          (normals_from without_attribute_bytes 84
             (Z.to_nat (declared_faces without_attribute_bytes)))).
Proof.
  apply (binary_layout without_attribute_bytes); [reflexivity|].
  vm_compute. intros [H|[_ H]]; discriminate H.
Defined.

Lemma layout_agree (a b : ArrayBuffer) (n : nat) (offset : Z) :
  (∀ i : Z, (offset ≤ i < offset + 50 * Z.of_nat n - 2)%Z →
            ((i - offset) mod 50 < 48)%Z → byteAt a i = byteAt b i) →
  positions_from a offset n = positions_from b offset n
  ∧ normals_from a offset n = normals_from b offset n.
Proof.
  revert offset. induction n as [|n IH]; intros offset H; [done|].
  assert (Hw : ∀ d : Z, (0 ≤ d ≤ 44)%Z → word32 a (offset + d) = word32 b (offset + d)).
  { assert (Hb : ∀ d : Z, (0 ≤ d < 48)%Z → byteAt a (offset + d) = byteAt b (offset + d)).
    { intros d Hd. apply H; [lia|].
      replace (offset + d - offset)%Z with d by lia.
      rewrite Z.mod_small; lia. }
    intros d Hd. unfold word32.
    rewrite <-!Z.add_assoc, !Hb by lia. done. }
  destruct (IH (offset + 50)%Z) as [Hp Hn].
  { intros i Hi Hm. apply H; [lia|].
    replace (i - offset)%Z with (i - (offset + 50) + 1 * 50)%Z by lia.
    by rewrite Z_mod_plus_full. }
  simpl. rewrite Hp, Hn.
  unfold record_positions, record_normals, triple_at, float_at.
  pose proof (Hw 0%Z) as H0. rewrite Z.add_0_r in H0.
  rewrite H0 by lia.
  rewrite <-!Z.add_assoc. simpl Z.add.
  rewrite !Hw by lia. done.
Qed.

(** The binary parser reads the triangle count and the first 48 bytes of each
    record, and nothing else: two buffers of the same length that agree on
    those bytes parse alike, whatever their 80-byte headers and their
    attribute bytes hold. *)
Theorem binary_reads_count_and_payload (a b : ArrayBuffer) :
  byteLength a = byteLength b →
  (∀ i : Z, payload_byte i → byteAt a i = byteAt b i) →
  parseBinary a = parseBinary b.
Proof.
  intros Hlen H.
  assert (Hfaces : declared_faces a = declared_faces b).
  { unfold declared_faces, word32.
    change (80 + 1)%Z with 81%Z. change (80 + 2)%Z with 82%Z. change (80 + 3)%Z with 83%Z.
    rewrite (H 80%Z), (H 81%Z), (H 82%Z), (H 83%Z) by (left; lia). done. }
  destruct (decide (binary_truncated a)) as [Ha|Ha].
  - rewrite (parseBinary_Throw a Ha), parseBinary_Throw; [done|].
    unfold binary_truncated in *. by rewrite <-Hlen, <-Hfaces.
  - assert (Hb : ¬ binary_truncated b).
    { unfold binary_truncated in *. by rewrite <-Hlen, <-Hfaces. }
    rewrite (parseBinary_records a Ha), (parseBinary_records b Hb), <-Hfaces.
    destruct (layout_agree a b (Z.to_nat (declared_faces a)) 84) as [-> ->]; [|done].
    intros i Hi Hm. apply H. right. split; [lia | done].
Qed.

Lemma one_triangle_payload (i : Z) :
  payload_byte i →
  byteAt (one_triangle x00 x00) i = byteAt (one_triangle x41 xff) i.
Proof.
  intros Hp. unfold byteAt.
  assert (Hn : (80 ≤ Z.to_nat i < 132 ∨ 134 ≤ Z.to_nat i)%nat).
  { destruct Hp as [Hp|[Hp Hm]]; [lia|].
    destruct (Z.lt_ge_cases i 134); [|lia].
    rewrite Z.mod_small in Hm by lia. lia. }
  revert Hn. generalize (Z.to_nat i). intros n Hn.
  do 134 (destruct n as [|n]; [first [reflexivity | exfalso; lia]|]).
  reflexivity.
Qed.

Lemma binary_reads_count_and_payload_witness :
  parseBinary (one_triangle x00 x00) = parseBinary (one_triangle x41 xff).
Proof.
  apply (binary_reads_count_and_payload (one_triangle x00 x00) (one_triangle x41 xff)).
  - reflexivity.
  - exact one_triangle_payload.
Defined.

Lemma byteAt_app (data extra : ArrayBuffer) (i : Z) :
  (0 ≤ i < byteLength data)%Z → byteAt (data ++ extra) i = byteAt data i.
Proof.
  unfold byteAt, byteLength, ArrayBuffer. intros Hi.
  by rewrite lookup_app_l by lia.
Qed.

(** Bytes after the last declared record are ignored: a binary-classified
    input that is not truncated parses to the same geometry with anything
    appended to it. *)
Theorem trailing_bytes_ignored (data extra : ArrayBuffer) :
  isASCII data = false → ¬ binary_truncated data →
  parseSTL (data ++ extra) = parseSTL data.
Proof.
  intros Hbin H. destruct (not_truncated_bounds data H) as [Hlen Hrec].
  assert (Hfaces : declared_faces (data ++ extra) = declared_faces data).
  { unfold declared_faces, word32. rewrite !byteAt_app; [done|lia..]. }
  assert (Hext : (byteLength data ≤ byteLength (data ++ extra))%Z).
  { unfold byteLength. rewrite length_app. lia. }
  assert (H' : ¬ binary_truncated (data ++ extra)).
  { unfold binary_truncated in *. rewrite Hfaces. intros [Hc|[Hc1 Hc2]].
    - lia.
    - apply H. right. split; [done | lia]. }
  unfold parseSTL, isASCII.
  rewrite take_app_le by (unfold byteLength in Hlen; lia).
  fold (isASCII data). rewrite Hbin.
  rewrite (parseBinary_records _ H'), (parseBinary_records _ H), Hfaces.
  destruct (layout_agree (data ++ extra) data (Z.to_nat (declared_faces data)) 84)
    as [-> ->]; [|done].
  intros i Hi _. apply byteAt_app. destruct Hrec as [Hrec|Hrec]; [|lia].
  rewrite Hrec in Hi. lia.
Qed.

Lemma trailing_bytes_ignored_witness :
  parseSTL (one_triangle x00 x00 ++ [x07; x07]) = parseSTL (one_triangle x00 x00).
Proof.
  apply (trailing_bytes_ignored (one_triangle x00 x00) [x07; x07]).
  - reflexivity.
  - vm_compute. intros [H|[_ H]]; discriminate H.
Defined.

(** ** The layout of an ASCII file *)

Lemma parseASCII_skips lines st :
  fold_left parseASCII_line (filter (λ l, classify l ≠ Skipped) lines) st
  = fold_left parseASCII_line lines st.
Proof.
  revert st. induction lines as [|raw lines IH]; intros st; [done|].
  destruct (decide (classify raw = Skipped)) as [Hk|Hk].
  - rewrite filter_cons_False by (cbv beta; intros Hc; by apply Hc).
    simpl. by rewrite (parseASCII_line_Skipped st raw Hk).
  - rewrite filter_cons_True by done. simpl. apply IH.
Qed.

(** The parser is blind to every line that, trimmed, starts neither with
    [facet normal] nor with [vertex]: two ASCII-classified inputs that have
    the same lines once those are taken out, wherever they stand, parse to
    the same geometry. *)
Theorem skipped_lines_ignored (data1 data2 : ArrayBuffer) :
  isASCII data1 = true → isASCII data2 = true →
  parsed_lines data1 = parsed_lines data2 →
  parseSTL data1 = parseSTL data2.
Proof.
  intros H1 H2 Hlines. unfold parseSTL. rewrite H1, H2. f_equal.
  unfold parseASCII, parseASCII_lines. unfold parsed_lines in Hlines.
  rewrite <-(parseASCII_skips (JS.split_char _ (TextDecoder_decode data1))).
  rewrite <-(parseASCII_skips (JS.split_char _ (TextDecoder_decode data2))).
  by rewrite Hlines.
Qed.

Lemma skipped_lines_ignored_witness :
  parseSTL one_facet_ascii = parseSTL bare_facet_ascii.
Proof.
  apply (skipped_lines_ignored one_facet_ascii bare_facet_ascii);
    vm_compute; reflexivity.
Defined.

Lemma parseASCII_line_facet st raw :
  classify raw = FacetNormal →
  ∃ n, [x n; y n; z n] = normal_numbers raw
       ∧ parseASCII_line st raw = mkAsciiState (vertices st) (normals st) (Some n).
Proof.
  unfold classify, parseASCII_line. intros H.
  destruct (JS.startsWith (JS.trim raw) "facet normal").
  - eexists (mkVector3 _ _ _). split; reflexivity.
  - destruct (JS.startsWith (JS.trim raw) "vertex"); discriminate.
Qed.

Lemma parseASCII_line_vertex st raw n :
  classify raw = Vertex → currentNormal st = Some n →
  parseASCII_line st raw
  = mkAsciiState (vertices st ++ vertex_numbers raw) (normals st ++ [x n; y n; z n]) (Some n).
Proof.
  unfold classify, parseASCII_line. intros H ->.
  destruct (JS.startsWith (JS.trim raw) "facet normal"); [discriminate|].
  destruct (JS.startsWith (JS.trim raw) "vertex"); [done | discriminate].
Qed.

Lemma parseASCII_vertices vs st n :
  Forall (λ v, classify v = Vertex) vs → currentNormal st = Some n →
  fold_left parseASCII_line vs st
  = mkAsciiState (vertices st ++ flat_map vertex_numbers vs)
      (normals st ++ flat_map (λ _, [x n; y n; z n]) vs) (Some n).
Proof.
  intros Hvs. revert st. induction Hvs as [|v vs Hv Hvs IH]; intros st Hn.
  - simpl. rewrite !app_nil_r, <-Hn. by destruct st.
  - simpl fold_left. rewrite (parseASCII_line_vertex st v n Hv Hn).
    rewrite IH by done. simpl. by rewrite <-!app_assoc.
Qed.

Lemma parseASCII_facets facets st :
  Forall well_formed facets →
  let st' := fold_left parseASCII_line (flat_map facet_lines facets) st in
  vertices st' = vertices st ++ flat_map facet_positions facets
  ∧ normals st' = normals st ++ flat_map facet_normals facets.
Proof.
  intros Hfs. revert st. induction Hfs as [|[f vs] facets [Hf Hvs] Hfs IH]; intros st.
  - simpl. by rewrite !app_nil_r.
  - simpl in Hf, Hvs.
    change (flat_map facet_lines ((f, vs) :: facets))
      with (f :: (vs ++ flat_map facet_lines facets)).
    cbn [fold_left]. rewrite fold_left_app.
    destruct (parseASCII_line_facet st f Hf) as (n & Hn & ->).
    rewrite (parseASCII_vertices vs (mkAsciiState (vertices st) (normals st) (Some n))
               n Hvs eq_refl).
    cbn [vertices normals].
    destruct (IH (mkAsciiState (vertices st ++ flat_map vertex_numbers vs)
                    (normals st ++ flat_map (λ _, [x n; y n; z n]) vs) (Some n)))
      as [-> ->].
    simpl. unfold facet_positions, facet_normals. simpl. rewrite Hn, <-!app_assoc. done.
Qed.

(** The ASCII layout.  When the lines that are not skipped are a sequence of
    facets, each a [facet normal] line followed by [vertex] lines, the
    positions are tokens 1 to 3 of every vertex line in file order, and the
    normals are tokens 2 to 4 of the facet line, once for each vertex line of
    that facet. *)
Theorem ascii_layout (data : ArrayBuffer) (facets : list facet) :
  isASCII data = true →
  parsed_lines data = flat_map facet_lines facets →
  Forall well_formed facets →
  parseSTL data
  = Ok (mkGeometry (flat_map facet_positions facets) (flat_map facet_normals facets)).
Proof.
  intros Hascii Hlines Hfs. unfold parseSTL. rewrite Hascii. f_equal.
  unfold parseASCII, parseASCII_lines. unfold parsed_lines in Hlines.
  rewrite <-parseASCII_skips, Hlines.
  by destruct (parseASCII_facets facets (mkAsciiState [] [] None) Hfs) as [-> ->].
Qed.

Lemma ascii_layout_witness :
  let facets := [("facet normal 0 0 1", ["  vertex 0 0 0"; "  vertex 1 0 0"; "  vertex 0 1 0"])] in
  parseSTL one_facet_ascii
  = Ok (mkGeometry (flat_map facet_positions facets) (flat_map facet_normals facets)).
Proof.
  cbv zeta. apply (ascii_layout one_facet_ascii).
  - reflexivity.
  - vm_compute. reflexivity.
  - repeat constructor.
Defined.

Lemma vertex_lines_from_first_facet ks :
  (vertex_lines (from_first_facet ks) ≤ vertex_lines ks)%nat.
Proof.
  unfold vertex_lines. induction ks as [|[] ks IH]; simpl; [done|done|..];
    filter_kinds; lia.
Qed.

(** No format error.  An input classified as ASCII in which no line starts
    with [vertex] parses, without any exception, to a geometry with no
    position and no normal; so does a binary file whose header holds
    [solid] and whose bytes form no such line. *)
Theorem ascii_without_vertex_is_empty (data : ArrayBuffer) :
  isASCII data = true → vertex_lines (line_kinds data) = 0%nat →
  parseSTL data = Ok (mkGeometry [] []).
Proof.
  intros Hascii H0. unfold parseSTL. rewrite Hascii. f_equal.
  unfold parseASCII, parseASCII_lines.
  destruct (parseASCII_fold (JS.split_char "010" (TextDecoder_decode data))
              (mkAsciiState [] [] None)) as [Hv Hn].
  fold (line_kinds data) in Hv, Hn. simpl in Hv, Hn.
  pose proof (vertex_lines_from_first_facet (line_kinds data)) as Hle.
  change (lit _ (line_kinds data)) with (from_first_facet (line_kinds data)) in Hn.
  f_equal; apply length_zero_iff_nil; lia.
Qed.

Lemma ascii_without_vertex_is_empty_witness :
  declared_faces solid_binary = 1%Z
  ∧ parseSTL solid_binary = Ok (mkGeometry [] []).
Proof.
  split; [reflexivity|].
  apply (ascii_without_vertex_is_empty solid_binary); vm_compute; reflexivity.
Defined.

(** ** The filter of the page *)

Lemma Array_includes_spec (array : list string) (x : string) :
  JS.Array_includes array x = true ↔ x ∈ array.
Proof.
  unfold JS.Array_includes. rewrite existsb_exists, list_elem_of_In. split.
  - intros (y & Hy & E). by apply String.eqb_eq in E as <-.
  - intros Hx. exists x. split; [done | apply String.eqb_refl].
Qed.

Lemma matchesTags_spec (selected : list string) (model : Model3D.t) :
  Home.matchesTags selected model = true
  ↔ ∀ tag, tag ∈ selected → tag ∈ Model3D.tags model.
Proof.
  unfold Home.matchesTags. rewrite forallb_forall.
  split; intros H tag Htag; apply Array_includes_spec, H;
    by apply list_elem_of_In.
Qed.

Lemma elem_of_List_filter {A : Type} (f : A → bool) (l : list A) (a : A) :
  a ∈ List.filter f l ↔ a ∈ l ∧ f a = true.
Proof. by rewrite !list_elem_of_In, filter_In. Qed.

Lemma List_filter_sublist {A : Type} (f : A → bool) (l : list A) :
  List.filter f l `sublist_of` l.
Proof.
  induction l as [|a l IH]; simpl; [done|].
  destruct (f a); by constructor.
Qed.

Lemma List_filter_narrows {A : Type} (f g : A → bool) (l : list A) :
  (∀ a, f a = true → g a = true) →
  List.filter f l `sublist_of` List.filter g l.
Proof.
  intros Hfg. induction l as [|a l IH]; simpl; [done|].
  destruct (f a) eqn:Hf.
  - rewrite (Hfg a Hf). by constructor.
  - destruct (g a); [by constructor | done].
Qed.

Lemma toLowerCase_latin1_length (s : string) :
  String.length (JS.toLowerCase_latin1 s) = String.length s.
Proof. induction s as [|c s IH]; simpl; [done | by rewrite IH]. Qed.

Lemma filterModels_elem (models : list Model3D.t) (filter : ModelFilter.t)
    (model : Model3D.t) :
  model ∈ Home.filterModels models filter
  ↔ model ∈ models
    ∧ (ModelFilter.searchTerm filter = EmptyString
       ∨ Home.matchesSearch
           (JS.toLowerCase_latin1 (ModelFilter.searchTerm filter)) model = true)
    ∧ ∀ tag, tag ∈ ModelFilter.tags filter → tag ∈ Model3D.tags model.
Proof.
  destruct filter as [selected term]. unfold Home.filterModels. simpl.
  assert (Hsearch :
    model ∈ (if (String.length term =? 0)%nat then models
             else List.filter (Home.matchesSearch (JS.toLowerCase_latin1 term)) models)
    ↔ model ∈ models
      ∧ (term = EmptyString
         ∨ Home.matchesSearch (JS.toLowerCase_latin1 term) model = true)).
  { destruct term as [|c term]; simpl.
    - split; [by auto | by intros [? _]].
    - rewrite elem_of_List_filter. split; [by intros [? ?]; auto|].
      intros [? [?|?]]; done. }
  destruct selected as [|tag0 selected].
  - simpl. rewrite Hsearch. split.
    + intros [? ?]. repeat split; try done. intros tag Htag. by apply elem_of_nil in Htag.
    + intros (? & ? & _). done.
  - change (0 <? length (tag0 :: selected))%nat with true. cbv iota.
    rewrite elem_of_List_filter, Hsearch, matchesTags_spec. tauto.
Qed.

(** The search test in words: the term occurs in the lower-cased name, in
    the lower-cased description if there is one, or in a lower-cased tag. *)
Lemma matchesSearch_spec (searchLower : string) (model : Model3D.t) :
  Home.matchesSearch searchLower model = true
  ↔ ∃ text pre post,
      (text = Model3D.name model
       ∨ Model3D.description model = Some text
       ∨ text ∈ Model3D.tags model)
      ∧ JS.toLowerCase_latin1 text = pre +:+ searchLower +:+ post.
Proof.
  unfold Home.matchesSearch. rewrite !orb_true_iff, existsb_exists. split.
  - intros [[H|H]|(tag & Htag & H)].
    + apply includes_spec in H as (pre & post & H).
      exists (Model3D.name model), pre, post. auto.
    + destruct (Model3D.description model) as [description|] eqn:E; [|done].
      apply includes_spec in H as (pre & post & H).
      exists description, pre, post. auto.
    + apply includes_spec in H as (pre & post & H).
      exists tag, pre, post. split; [|done]. right. right. by apply list_elem_of_In.
  - intros (text & pre & post & [->|[E|Htag]] & H).
    + left. left. apply includes_spec. by exists pre, post.
    + left. right. rewrite E. apply includes_spec. by exists pre, post.
    + right. exists text. split; [by apply list_elem_of_In|].
      apply includes_spec. by exists pre, post.
Qed.

(** What the page shows.  The models shown are loaded models, in the order
    in which they were loaded, and a loaded model is shown exactly when the
    search term is empty or occurs, lower-cased, in its lower-cased name,
    description or one of its tags, and the model carries every selected
    tag. *)
Theorem filterModels_spec (models : list Model3D.t) (filter : ModelFilter.t) :
  Home.filterModels models filter `sublist_of` models
  ∧ ∀ model,
      model ∈ Home.filterModels models filter
      ↔ model ∈ models
        ∧ (ModelFilter.searchTerm filter = EmptyString
           ∨ ∃ text pre post,
               (text = Model3D.name model
                ∨ Model3D.description model = Some text
                ∨ text ∈ Model3D.tags model)
               ∧ JS.toLowerCase_latin1 text
                 = pre +:+ JS.toLowerCase_latin1 (ModelFilter.searchTerm filter) +:+ post)
        ∧ ∀ tag, tag ∈ ModelFilter.tags filter → tag ∈ Model3D.tags model.
Proof.
  split; [|intros model; rewrite <-matchesSearch_spec; apply filterModels_elem].
  destruct filter as [selected term]. unfold Home.filterModels. simpl.
  destruct (0 <? length selected)%nat; [etrans; [apply List_filter_sublist|]|];
    destruct (String.length term =? 0)%nat; try done; apply List_filter_sublist.
Qed.

(** The sample library searched for a word of a description, for a tag in
    capitals, and for a word that occurs nowhere. *)
Lemma filterModels_spec_sample :
  Home.filterModels Samples.library (ModelFilter.mk [] "20 MM") = [Samples.cube]
  ∧ Home.filterModels Samples.library (ModelFilter.mk [] "DECOR") = [Samples.vase]
  ∧ Home.filterModels Samples.library (ModelFilter.mk ["test"] "gear") = [].
Proof. repeat split; reflexivity. Qed.

(** The search is blind to the case of the term: two terms that are equal
    once lower-cased select the same models. *)
Theorem search_ignores_case (models : list Model3D.t) (selected : list string)
    (term1 term2 : string) :
  JS.toLowerCase_latin1 term1 = JS.toLowerCase_latin1 term2 →
  Home.filterModels models (ModelFilter.mk selected term1)
  = Home.filterModels models (ModelFilter.mk selected term2).
Proof.
  intros E. unfold Home.filterModels. simpl.
  rewrite <-(toLowerCase_latin1_length term1), <-(toLowerCase_latin1_length term2).
  by rewrite E.
Qed.

Lemma search_ignores_case_witness :
  Home.filterModels Samples.library (ModelFilter.mk [] "CUBE")
  = Home.filterModels Samples.library (ModelFilter.mk [] "cube").
Proof. apply search_ignores_case. reflexivity. Defined.

(** ** Selecting tags *)

Lemma filterModels_same_tags (models : list Model3D.t) (tags1 tags2 : list string)
    (term : string) :
  (∀ tag, tag ∈ tags1 ↔ tag ∈ tags2) →
  Home.filterModels models (ModelFilter.mk tags1 term)
  = Home.filterModels models (ModelFilter.mk tags2 term).
Proof.
  intros Hsame. unfold Home.filterModels. simpl.
  assert (Hempty : (0 <? length tags1)%nat = (0 <? length tags2)%nat).
  { destruct tags1 as [|t1 tags1], tags2 as [|t2 tags2]; try done.
    - exfalso. apply (elem_of_nil t2), Hsame. left.
    - exfalso. apply (elem_of_nil t1), Hsame. left. }
  rewrite Hempty. destruct (0 <? length tags2)%nat; [|done].
  apply List.filter_ext. intros model.
  apply eq_true_iff_eq. rewrite !matchesTags_spec.
  split; intros H tag Htag; apply H, Hsame, Htag.
Qed.

Lemma toggled_tags (tags : list string) (term tag t : string) :
  t ∈ ModelFilter.tags (ModelFilterComponent.handleTagToggle (ModelFilter.mk tags term) tag)
  ↔ (t = tag ∧ tag ∉ tags) ∨ (t ≠ tag ∧ t ∈ tags).
Proof.
  unfold ModelFilterComponent.handleTagToggle. simpl.
  destruct (JS.Array_includes tags tag) eqn:Hin.
  - apply Array_includes_spec in Hin. rewrite elem_of_List_filter, negb_true_iff.
    rewrite String.eqb_neq. split.
    + intros [? ?]. by right.
    + intros [[-> ?]|[? ?]]; done.
  - assert (Hnot : tag ∉ tags).
    { intros Hc. apply Array_includes_spec in Hc. congruence. }
    rewrite elem_of_app, list_elem_of_singleton. split.
    + intros [Ht| ->]; [right | by left]. split; [|done]. by intros ->.
    + intros [[-> _]|[_ ?]]; auto.
Qed.

Lemma List_filter_NoDup {A : Type} (f : A → bool) (l : list A) :
  NoDup l → NoDup (List.filter f l).
Proof. intros H. apply (sublist_NoDup _ l H), List_filter_sublist. Qed.

(** A click on a tag flips that tag and no other: afterwards the tag is
    selected exactly when it was not before, every other tag is selected
    exactly when it was before, no tag is selected twice if none was, and
    the search term is the same. *)
Theorem handleTagToggle_flips (filter : ModelFilter.t) (tag : string) :
  let toggled := ModelFilterComponent.handleTagToggle filter tag in
  (∀ t, t ∈ ModelFilter.tags toggled
        ↔ (t = tag ∧ tag ∉ ModelFilter.tags filter)
          ∨ (t ≠ tag ∧ t ∈ ModelFilter.tags filter))
  ∧ (NoDup (ModelFilter.tags filter) → NoDup (ModelFilter.tags toggled))
  ∧ ModelFilter.searchTerm toggled = ModelFilter.searchTerm filter.
Proof.
  destruct filter as [tags term]. cbv zeta. split; [intros t; apply toggled_tags|].
  split; [|done]. unfold ModelFilterComponent.handleTagToggle. simpl. intros Hnd.
  destruct (JS.Array_includes tags tag) eqn:Hin; [by apply List_filter_NoDup|].
  apply NoDup_app. split; [done|]. split; [|apply NoDup_singleton].
  intros t Ht ->%list_elem_of_singleton.
  apply Array_includes_spec in Ht. congruence.
Qed.

(** Two clicks on the same tag leave the page as it was: the models shown
    are the same, whether the tag was selected before or not. *)
Theorem toggle_twice_same_models (models : list Model3D.t) (filter : ModelFilter.t)
    (tag : string) :
  Home.filterModels models
    (ModelFilterComponent.handleTagToggle
       (ModelFilterComponent.handleTagToggle filter tag) tag)
  = Home.filterModels models filter.
Proof.
  destruct filter as [tags term].
  destruct (ModelFilterComponent.handleTagToggle (ModelFilter.mk tags term) tag)
    as [tags1 term1] eqn:E1.
  destruct (ModelFilterComponent.handleTagToggle (ModelFilter.mk tags1 term1) tag)
    as [tags2 term2] eqn:E2.
  assert (term1 = term) as ->. { by injection E1 as _ <-. }
  assert (term2 = term) as ->. { by injection E2 as _ <-. }
  apply filterModels_same_tags. intros t.
  change tags2 with (ModelFilter.tags (ModelFilter.mk tags2 term)).
  rewrite <-E2, toggled_tags.
  change tags1 with (ModelFilter.tags (ModelFilter.mk tags1 term)).
  rewrite <-E1, !toggled_tags.
  destruct (decide (t = tag)) as [->|Hne], (decide (tag ∈ tags)); intuition congruence.
Qed.

(** Selecting one more tag never adds a model to the page, and every model
    that stays carries the new tag; deselecting a tag never takes a model
    off the page. *)
Theorem toggle_narrows_or_widens (models : list Model3D.t) (filter : ModelFilter.t)
    (tag : string) :
  let toggled := ModelFilterComponent.handleTagToggle filter tag in
  (tag ∉ ModelFilter.tags filter →
     Home.filterModels models toggled `sublist_of` Home.filterModels models filter
     ∧ ∀ model, model ∈ Home.filterModels models toggled → tag ∈ Model3D.tags model)
  ∧ (tag ∈ ModelFilter.tags filter →
     Home.filterModels models filter `sublist_of` Home.filterModels models toggled).
Proof.
  destruct filter as [tags term]. cbv zeta. split.
  - simpl. intros Hnot. split.
    + unfold ModelFilterComponent.handleTagToggle. simpl.
      assert (JS.Array_includes tags tag = false) as ->.
      { apply not_true_is_false. by rewrite Array_includes_spec. }
      unfold Home.filterModels. simpl.
      assert ((0 <? length (tags ++ [tag]))%nat = true) as ->.
      { apply Nat.ltb_lt. rewrite length_app. simpl. lia. }
      destruct (0 <? length tags)%nat; [|apply List_filter_sublist].
      apply List_filter_narrows. intros model. rewrite !matchesTags_spec.
      intros H t Ht. apply H, elem_of_app. by left.
    + intros model Hin. apply filterModels_elem in Hin as (_ & _ & Htags).
      apply Htags, toggled_tags. by left.
  - simpl. intros Hin. unfold ModelFilterComponent.handleTagToggle. simpl.
    apply Array_includes_spec in Hin as Hinc. rewrite Hinc.
    unfold Home.filterModels. simpl.
    assert ((0 <? length tags)%nat = true) as ->.
    { destruct tags; [by apply elem_of_nil in Hin | done]. }
    destruct (0 <? length _)%nat; [|apply List_filter_sublist].
    apply List_filter_narrows. intros model. rewrite !matchesTags_spec.
    intros H t Ht. apply H. apply elem_of_List_filter in Ht as [? _]. done.
Qed.

Lemma toggle_narrows_or_widens_witness :
  Home.filterModels Samples.library
    (ModelFilterComponent.handleTagToggle (ModelFilter.mk ["test"] "") "decor")
  `sublist_of` Home.filterModels Samples.library (ModelFilter.mk ["test"] "")
  ∧ Home.filterModels Samples.library (ModelFilter.mk ["test"; "decor"] "")
    `sublist_of` Home.filterModels Samples.library
      (ModelFilterComponent.handleTagToggle (ModelFilter.mk ["test"; "decor"] "") "decor").
Proof.
  split.
  - apply (toggle_narrows_or_widens Samples.library (ModelFilter.mk ["test"] "") "decor").
    simpl. by intros ?%list_elem_of_singleton.
  - apply (toggle_narrows_or_widens Samples.library (ModelFilter.mk ["test"; "decor"] "") "decor").
    simpl. apply list_elem_of_further, list_elem_of_here.
Defined.

(** ** The tags offered *)

Lemma Set_from_fold (array set : list string) :
  NoDup set →
  let r := fold_left (λ set x, if JS.Array_includes set x then set else set ++ [x])
             array set in
  NoDup r ∧ ∀ x, x ∈ r ↔ x ∈ set ∨ x ∈ array.
Proof.
  revert set. induction array as [|a array IH]; intros set Hnd; simpl.
  - split; [done|]. intros x. rewrite elem_of_nil. tauto.
  - destruct (JS.Array_includes set a) eqn:Hin.
    + destruct (IH set Hnd) as [Hr Hx]. split; [done|]. intros x.
      rewrite Hx, elem_of_cons. apply Array_includes_spec in Hin.
      split; [tauto|]. intros [?|[->|?]]; auto.
    + assert (Hnot : a ∉ set).
      { intros Hc. apply Array_includes_spec in Hc. congruence. }
      destruct (IH (set ++ [a])) as [Hr Hx].
      { apply NoDup_app. split; [done|]. split; [|apply NoDup_singleton].
        by intros t Ht ->%list_elem_of_singleton. }
      split; [done|]. intros x.
      rewrite Hx, elem_of_app, list_elem_of_singleton, elem_of_cons. tauto.
Qed.

Lemma availableTags_elem (models : list Model3D.t) (tag : string) :
  tag ∈ Home.availableTags models
  ↔ ∃ model, model ∈ models ∧ tag ∈ Model3D.tags model.
Proof.
  unfold Home.availableTags, JS.Array_sort, JS.Set_from.
  rewrite merge_sort_Permutation.
  destruct (Set_from_fold (flat_map Model3D.tags models) [] (NoDup_nil_2)) as [_ Hx].
  rewrite Hx, elem_of_nil, list_elem_of_In, in_flat_map.
  setoid_rewrite list_elem_of_In. tauto.
Qed.

(** The tags offered for selection are the tags of the loaded models, each
    once, in ascending order of their code units. *)
Theorem availableTags_spec (models : list Model3D.t) :
  Sorted String.le (Home.availableTags models)
  ∧ NoDup (Home.availableTags models)
  ∧ ∀ tag, tag ∈ Home.availableTags models
           ↔ ∃ model, model ∈ models ∧ tag ∈ Model3D.tags model.
Proof.
  split; [apply (Sorted_merge_sort String.le)|].
  split; [|apply availableTags_elem].
  unfold Home.availableTags, JS.Array_sort, JS.Set_from.
  rewrite merge_sort_Permutation.
  by destruct (Set_from_fold (flat_map Model3D.tags models) [] (NoDup_nil_2)) as [Hnd _].
Qed.

(** No dead tag: with an empty search term, selecting any one of the tags
    offered shows at least one model. *)
Theorem available_tag_selects_a_model (models : list Model3D.t) (tag : string) :
  tag ∈ Home.availableTags models →
  ∃ model, model ∈ Home.filterModels models (ModelFilter.mk [tag] EmptyString).
Proof.
  intros (model & Hin & Htag)%availableTags_elem. exists model.
  apply filterModels_elem. simpl. split; [done|]. split; [by left|].
  by intros t ->%list_elem_of_singleton.
Qed.

Lemma available_tag_selects_a_model_witness :
  ∃ model, model ∈ Home.filterModels Samples.library (ModelFilter.mk ["decor"] EmptyString).
Proof.
  apply (available_tag_selects_a_model Samples.library "decor").
  vm_compute. apply list_elem_of_further, list_elem_of_here.
Defined.

(** ** Clearing the preview cache *)

Lemma getCacheKey_prefixed (p : props) :
  PreviewManager.isPreviewKey (getCacheKey p) = true.
Proof.
  apply startsWith_spec. rewrite getCacheKey_base64. by eexists.
Qed.

Lemma removePreviews_fold (keys : list string) (store : gmap string cacheData) (n : nat) :
  let r := fold_left PreviewManager.removePreview keys (store, n) in
  (∀ k, r.1 !! k
        = if bool_decide (k ∈ keys) && PreviewManager.isPreviewKey k
          then None else store !! k)
  ∧ r.2 = (n + length (List.filter PreviewManager.isPreviewKey keys))%nat.
Proof.
  revert store n. induction keys as [|key keys IH]; intros store n.
  - split; [done | simpl; lia].
  - cbn [fold_left List.filter].
    change (PreviewManager.removePreview (store, n) key)
      with (if PreviewManager.isPreviewKey key then (delete key store, S n)
            else (store, n)).
    destruct (PreviewManager.isPreviewKey key) eqn:Hkey.
    + destruct (IH (delete key store) (S n)) as [Hs Hn]. split; [|simpl; lia].
      intros k. rewrite Hs.
      destruct (decide (k = key)) as [->|Hne].
      * rewrite Hkey, lookup_delete_eq, andb_true_r.
        rewrite (bool_decide_eq_true_2 (key ∈ key :: keys)) by left.
        by destruct (bool_decide (key ∈ keys)).
      * rewrite lookup_delete_ne by done.
        rewrite (bool_decide_ext (k ∈ key :: keys) (k ∈ keys)); [done|].
        rewrite elem_of_cons. tauto.
    + destruct (IH store n) as [Hs Hn]. split; [|done].
      intros k. rewrite Hs.
      destruct (decide (k = key)) as [->|Hne].
      * by rewrite Hkey, !andb_false_r.
      * rewrite (bool_decide_ext (k ∈ key :: keys) (k ∈ keys)); [done|].
        rewrite elem_of_cons. tauto.
Qed.

Lemma List_filter_none {A : Type} (f : A → bool) (l : list A) :
  (∀ a, a ∈ l → f a = false) → List.filter f l = [].
Proof.
  induction l as [|a l IH]; intros H; simpl; [done|].
  rewrite (H a) by left. apply IH. intros b Hb. apply H. by right.
Qed.

Lemma Object_keys_elem (store : gmap string cacheData) (k : string) :
  k ∈ PreviewManager.Object_keys store ↔ is_Some (store !! k).
Proof.
  unfold PreviewManager.Object_keys. rewrite list_elem_of_fmap. split.
  - intros ([k' c] & -> & Hin). apply elem_of_map_to_list in Hin. by exists c.
  - intros [c Hc]. exists (k, c). split; [done|]. by apply elem_of_map_to_list.
Qed.

Lemma clearAllPreviews_lookup (store : gmap string cacheData) (k : string) :
  (PreviewManager.clearAllPreviews store).1 !! k
  = if PreviewManager.isPreviewKey k then None else store !! k.
Proof.
  unfold PreviewManager.clearAllPreviews, PreviewManager.removePreviews.
  destruct (removePreviews_fold (PreviewManager.Object_keys store) store 0) as [Hs _].
  rewrite Hs. destruct (PreviewManager.isPreviewKey k); [|by rewrite andb_false_r].
  rewrite andb_true_r. case_bool_decide as Hk; [done|].
  rewrite Object_keys_elem, <-eq_None_not_Some in Hk. by rewrite Hk.
Qed.

(** Clearing the preview cache removes the entries whose key starts with
    [model_preview_] and only those: every other key of the origin keeps its
    value.  The count reported is the number of preview entries there were,
    and none is left. *)
Theorem clearAllPreviews_spec (localStorage : gmap string cacheData) :
  let cleared := PreviewManager.clearAllPreviews localStorage in
  (∀ key, cleared.1 !! key
          = if PreviewManager.isPreviewKey key then None else localStorage !! key)
  ∧ cleared.2 = PreviewManager.getCachedPreviewsCount localStorage
  ∧ PreviewManager.getCachedPreviewsCount cleared.1 = 0%nat.
Proof.
  cbv zeta. split; [apply clearAllPreviews_lookup|]. split.
  - unfold PreviewManager.clearAllPreviews, PreviewManager.removePreviews.
    by destruct (removePreviews_fold (PreviewManager.Object_keys localStorage)
                   localStorage 0) as [_ ->].
  - unfold PreviewManager.getCachedPreviewsCount.
    apply length_zero_iff_nil, List_filter_none.
    intros key [c Hc]%Object_keys_elem.
    rewrite clearAllPreviews_lookup in Hc.
    by destruct (PreviewManager.isPreviewKey key).
Qed.

(** After the preview cache is cleared every card misses: whatever the
    arguments of a hook, its [loadFromCache] finds nothing. *)
Theorem clearAllPreviews_empties_every_slot (localStorage : gmap string cacheData)
    (p : props) (now : Z) :
  let cleared := (PreviewManager.clearAllPreviews localStorage).1 in
  loadFromCache p now cleared = (None, cleared).
Proof.
  cbv zeta. unfold loadFromCache.
  by rewrite clearAllPreviews_lookup, getCacheKey_prefixed.
Qed.

(** ** Generating all the previews *)

Lemma cacheKey_prefixed (model : Model3D.t) (key : string) :
  PreviewManager.cacheKey model = Ok key → PreviewManager.isPreviewKey key = true.
Proof.
  unfold PreviewManager.cacheKey.
  destruct (btoa _) as [encoded|e]; cbn [mbind result_bind]; [|done].
  intros [= <-]. apply startsWith_spec. by eexists.
Qed.

(** One iteration either succeeds, for a model whose preview can be
    generated, and then writes under a preview key, or collects one error
    message and leaves the store as it is. *)
Lemma generateOne_cases (env : PreviewGenerator.browser)
    (quota : gmap string cacheData → string → cacheData → option string)
    (now : Z) (model : Model3D.t) (r : PreviewManager.run) :
  let r' := PreviewManager.generateOne env quota now model r in
  (PreviewManager.generates env model = true
   ∧ PreviewManager.successCount r' = S (PreviewManager.successCount r)
   ∧ PreviewManager.newErrors r' = PreviewManager.newErrors r
   ∧ ∃ key value,
       PreviewManager.isPreviewKey key = true
       ∧ PreviewManager.store r' = <[key := value]> (PreviewManager.store r))
  ∨ (PreviewManager.successCount r' = PreviewManager.successCount r
     ∧ length (PreviewManager.newErrors r') = S (length (PreviewManager.newErrors r))
     ∧ PreviewManager.store r' = PreviewManager.store r
     ∧ (PreviewManager.generates env model = true →
        (∃ key, PreviewManager.cacheKey model = Ok key) →
        ∃ key value, quota (PreviewManager.store r) key value ≠ None)).
Proof.
  cbv zeta. unfold PreviewManager.generateOne, PreviewManager.generates.
  destruct (PreviewGenerator.generateModelPreview env (Model3D.path model)) as [img|e];
    cbn [mbind result_bind].
  - destruct (PreviewManager.cacheKey model) as [key|e] eqn:Hkey; cbn [mbind result_bind].
    + unfold PreviewManager.setItem.
      destruct (quota _ key _) as [message|] eqn:Hquota.
      * right. cbn. rewrite length_app. simpl. repeat split; [lia|].
        intros _ _. exists key. eexists. by rewrite Hquota.
      * left. cbn. repeat split. exists key. eexists. split; [|done].
        by apply (cacheKey_prefixed model).
    + right. cbn. rewrite length_app. simpl. repeat split; [lia|].
      intros _ [key' Hkey']. discriminate Hkey'.
  - right. cbn. rewrite length_app. simpl. repeat split; [lia|]. done.
Qed.

Lemma generateLoop_accounts (env : PreviewGenerator.browser)
    (quota : gmap string cacheData → string → cacheData → option string)
    (clock : nat → Z) (models : list Model3D.t) (i : nat) (r : PreviewManager.run) :
  let r' := PreviewManager.generateLoop env quota clock i models r in
  (PreviewManager.successCount r' + length (PreviewManager.newErrors r')
   = PreviewManager.successCount r + length (PreviewManager.newErrors r)
     + length models)%nat
  ∧ (PreviewManager.successCount r'
     ≤ PreviewManager.successCount r
       + length (List.filter (PreviewManager.generates env) models))%nat
  ∧ (∀ key, PreviewManager.isPreviewKey key = false →
            PreviewManager.store r' !! key = PreviewManager.store r !! key)
  ∧ ((∀ store key value, quota store key value = None) →
     (∀ model, model ∈ models → ∃ key, PreviewManager.cacheKey model = Ok key) →
     PreviewManager.successCount r'
     = (PreviewManager.successCount r
        + length (List.filter (PreviewManager.generates env) models))%nat).
Proof.
  revert i r. induction models as [|model models IH]; intros i r.
  - simpl. repeat split; lia.
  - cbn [PreviewManager.generateLoop List.filter length].
    destruct (IH (S i) (PreviewManager.generateOne env quota (clock i) model r))
      as (Hsum & Hle & Hk & Hall). clear IH.
    cbv zeta.
    destruct (generateOne_cases env quota (clock i) model r)
      as [(Hg & Hs & He & key & value & Hkey & Hstore)
         |(Hs & He & Hstore & Hwhy)].
    + rewrite Hg. cbn [length]. rewrite Hs, He in Hsum. rewrite Hs in Hle.
      split; [lia|]. split; [lia|]. split.
      * intros k Hk'. rewrite Hk by done. rewrite Hstore.
        apply lookup_insert_ne. intros <-. congruence.
      * intros Hroom Hkeys. rewrite Hall; [rewrite Hs; lia | done |].
        intros m Hm. apply Hkeys. by apply elem_of_cons; right.
    + rewrite Hs, He in Hsum. rewrite Hs in Hle.
      split; [lia|]. split.
      { destruct (PreviewManager.generates env model); cbn [length]; lia. }
      split.
      * intros k Hk'. rewrite Hk by done. by rewrite Hstore.
      * intros Hroom Hkeys. rewrite Hall; [rewrite Hs | done |].
        -- destruct (PreviewManager.generates env model) eqn:Hg; [|done].
           destruct Hwhy as (key & value & Hquota); [done| |].
           ++ apply Hkeys, list_elem_of_here.
           ++ by rewrite Hroom in Hquota.
        -- intros m Hm. apply Hkeys. by apply elem_of_cons; right.
Qed.

(** Every model is accounted for once.  A run of [generateAllPreviews] that
    is not stopped at its guard counts a success or collects an error
    message for each model, and a success only for a model whose preview can
    be generated; with or without clearing first, it leaves every key that
    does not start with [model_preview_] as it was.  When the storage
    accepts every write and [btoa] can encode the key of every model, the
    successes are exactly the models whose preview can be generated. *)
Theorem generateAllPreviews_accounts (env : PreviewGenerator.browser)
    (quota : gmap string cacheData → string → cacheData → option string)
    (clock : nat → Z) (clearCacheFirst : bool) (models : list Model3D.t)
    (localStorage : gmap string cacheData) :
  ∃ r,
    PreviewManager.generateAllPreviews env quota clock false clearCacheFirst models
      localStorage = Some r
    ∧ (PreviewManager.successCount r + length (PreviewManager.newErrors r)
       = length models)%nat
    ∧ (PreviewManager.successCount r
       ≤ length (List.filter (PreviewManager.generates env) models))%nat
    ∧ (∀ key, PreviewManager.isPreviewKey key = false →
              PreviewManager.store r !! key = localStorage !! key)
    ∧ ((∀ store key value, quota store key value = None) →
       (∀ model, model ∈ models → ∃ key, PreviewManager.cacheKey model = Ok key) →
       PreviewManager.successCount r
       = length (List.filter (PreviewManager.generates env) models)).
Proof.
  unfold PreviewManager.generateAllPreviews. eexists. split; [done|].
  match goal with
  | |- context [PreviewManager.generateLoop env quota clock 0 models ?r0] =>
      destruct (generateLoop_accounts env quota clock models 0 r0)
        as (Hsum & Hle & Hk & Hall)
  end.
  simpl in Hsum, Hle, Hall. split; [exact Hsum|]. split; [exact Hle|]. split; [|exact Hall].
  intros key Hkey. rewrite Hk by done. simpl.
  destruct clearCacheFirst; [|done].
  fold (PreviewManager.clearAllPreviews localStorage).
  by rewrite clearAllPreviews_lookup, Hkey.
Qed.

(** The sample library on a storage with room, and on one that is full:
    two successes, and two errors with nothing stored. *)
Lemma generateAllPreviews_accounts_witness :
  (∃ r,
     PreviewManager.generateAllPreviews Samples.browser Samples.roomy Samples.clock
       false true Samples.library ∅ = Some r
     ∧ PreviewManager.successCount r = 2%nat)
  ∧ (∃ r,
       PreviewManager.generateAllPreviews Samples.browser Samples.full Samples.clock
         false true Samples.library ∅ = Some r
       ∧ PreviewManager.successCount r = 0%nat
       ∧ length (PreviewManager.newErrors r) = 2%nat
       ∧ PreviewManager.store r = ∅).
Proof.
  split.
  - destruct (generateAllPreviews_accounts Samples.browser Samples.roomy Samples.clock
                true Samples.library ∅) as (r & Hr & _ & _ & _ & Hall).
    exists r. split; [exact Hr|]. rewrite Hall; [reflexivity | reflexivity |].
    intros model Hmodel. eexists. unfold PreviewManager.cacheKey, btoa.
    rewrite latin1_all. reflexivity.
  - eexists. split; [reflexivity|]. repeat split; reflexivity.
Defined.

(** ** The hook on mount *)

Lemma mountEffect_miss (generateOnMount captured : bool) (p : props) (now : Z) (w : world) :
  modelUrl p ≠ EmptyString →
  localStorage w !! getCacheKey p = None →
  mountEffect generateOnMount captured p now w
  = if generateOnMount then generatePreview_call captured p w else (w, false).
Proof.
  intros Hurl Hmiss. unfold mountEffect, loadFromCache. rewrite Hmiss.
  destruct (modelUrl p) as [|c url] eqn:E; [done|]. cbn [String.length Nat.eqb].
  by destruct w.
Qed.

(** A hook that mounts reads the cache first.  When the store holds, under
    the key of the slot, an entry with an image and a time stamp [t], the
    effect publishes that image and starts no request at any time before
    [t] plus seven days, with or without [generateOnMount]; from then on,
    with [generateOnMount] and a callback created by an idle render, it
    drops the entry and starts a new request. *)
Theorem mount_reads_cache (p : props) (c : cacheData) (now : Z) (w : world)
    (generateOnMount captured : bool) :
  modelUrl p ≠ EmptyString →
  localStorage w !! getCacheKey p = Some c →
  dataUrl c ≠ EmptyString → timestamp c ≠ 0%Z →
  ((now < timestamp c + seven_days)%Z →
     mountEffect generateOnMount captured p now w
     = (mkWorld (mkState (Some (dataUrl c)) (isGenerating (hook w)) (error (hook w)))
          (localStorage w) (sessions w),
        false))
  ∧ ((timestamp c + seven_days ≤ now)%Z →
     mountEffect true false p now w
     = (mkWorld (mkState (previewUrl (hook w)) true None)
          (delete (getCacheKey p) (localStorage w)) (S (sessions w)),
        true)).
Proof.
  intros Hurl Hentry Himg Ht.
  assert (Hnonempty : (String.length (modelUrl p) =? 0)%nat = false).
  { by destruct (modelUrl p). }
  unfold mountEffect, loadFromCache. rewrite Hnonempty, Hentry. split.
  - intros Hfresh. rewrite isCacheValid_fresh by done.
    rewrite bool_decide_eq_true_2 by done.
    destruct (dataUrl c) as [|ch d]; [done|]. reflexivity.
  - intros Hstale. rewrite isCacheValid_stale by done.
    unfold generatePreview_call. rewrite Hnonempty. reflexivity.
Qed.

Lemma mount_reads_cache_witness :
  let p := ModelCard.hookProps Samples.cube in
  let c := mkCacheData Samples.image 1700000000000 "/models/cube.stl" None in
  let w := mkWorld (mkState None false None) (<[getCacheKey p := c]> ∅) 0 in
  mountEffect true false p (1700000000000 + seven_days - 1) w
  = (mkWorld (mkState (Some Samples.image) false None) (<[getCacheKey p := c]> ∅) 0,
     false)
  ∧ mountEffect true false p (1700000000000 + seven_days) w
    = (mkWorld (mkState None true None) (delete (getCacheKey p) (<[getCacheKey p := c]> ∅)) 1,
       true).
Proof.
  cbv zeta.
  destruct (mount_reads_cache (ModelCard.hookProps Samples.cube)
              (mkCacheData Samples.image 1700000000000 "/models/cube.stl" None)
              (1700000000000 + seven_days - 1)
              (mkWorld (mkState None false None)
                 (<[getCacheKey (ModelCard.hookProps Samples.cube)
                    := mkCacheData Samples.image 1700000000000 "/models/cube.stl" None]> ∅)
                 0) true false) as [Hfresh _];
    [discriminate | apply lookup_insert_eq | discriminate | discriminate |].
  destruct (mount_reads_cache (ModelCard.hookProps Samples.cube)
              (mkCacheData Samples.image 1700000000000 "/models/cube.stl" None)
              (1700000000000 + seven_days)
              (mkWorld (mkState None false None)
                 (<[getCacheKey (ModelCard.hookProps Samples.cube)
                    := mkCacheData Samples.image 1700000000000 "/models/cube.stl" None]> ∅)
                 0) true false) as [_ Hstale];
    [discriminate | apply lookup_insert_eq | discriminate | discriminate |].
  split; [apply Hfresh | apply Hstale]; cbn [timestamp]; lia.
Defined.

Lemma turn_failure (env : PreviewGenerator.browser) (p : props) (now : Z) (w : world) :
  preview_failure env (modelUrl p) → modelUrl p ≠ EmptyString →
  isGenerating (hook w) = false → localStorage w !! getCacheKey p = None →
  let w' := turn env true p now w in
  sessions w' = S (sessions w)
  ∧ isGenerating (hook w') = false
  ∧ localStorage w' = localStorage w
  ∧ is_Some (error (hook w')).
Proof.
  intros Hfail Hurl Hidle Hmiss. cbv zeta. unfold turn.
  rewrite mountEffect_miss by done. rewrite Hidle. unfold generatePreview_call.
  assert ((String.length (modelUrl p) =? 0)%nat = false) as ->.
  { by destruct (modelUrl p). }
  cbn [orb]. unfold generatePreview_settle.
  rewrite (generateModelPreview_failure env (modelUrl p) Hfail). simpl.
  repeat split; []. by eexists.
Qed.

(** A failing preview is requested again and again.  When the request for a
    slot fails, at the fetch, the parse, the render or the validation, the
    state the hook ends in makes the effect run again and start the same
    request: over [n] turns of a mounted card with [generateOnMount], [n]
    render sessions are started, the cache staying empty for the slot. *)
Theorem failing_preview_is_retried (env : PreviewGenerator.browser) (p : props)
    (clock : nat → Z) (w : world) (n : nat) :
  preview_failure env (modelUrl p) → modelUrl p ≠ EmptyString →
  isGenerating (hook w) = false → localStorage w !! getCacheKey p = None →
  let w' := turns env true p clock n w in
  sessions w' = (sessions w + n)%nat
  ∧ isGenerating (hook w') = false
  ∧ localStorage w' = localStorage w.
Proof.
  intros Hfail Hurl Hidle Hmiss. cbv zeta. induction n as [|n (Hs & Hg & Hl)].
  - simpl. repeat split; first [lia | done].
  - cbn [turns].
    destruct (turn_failure env p (clock n) (turns env true p clock n w))
      as (Hs' & Hg' & Hl' & _); [done | done | done | by rewrite Hl |].
    rewrite Hs', Hg', Hl', Hs, Hl. repeat split; first [lia | done].
Qed.

Lemma failing_preview_is_retried_witness :
  let p := ModelCard.hookProps Samples.cube in
  sessions (turns Samples.offline true p Samples.clock 5
              (mkWorld (mkState None false None) ∅ 0)) = 5%nat.
Proof.
  cbv zeta.
  apply (failing_preview_is_retried Samples.offline (ModelCard.hookProps Samples.cube)
           Samples.clock (mkWorld (mkState None false None) ∅ 0) 5).
  - apply (fetch_fails _ _ (Error "Not Found")). reflexivity.
  - discriminate.
  - reflexivity.
  - apply lookup_empty.
Defined.

(** ** Framing the model *)

Lemma Math_max_l (a b : Q) : (a <= Math.max a b)%Q.
Proof. unfold Math.max. case_Qle a b; lra. Qed.

Lemma Math_max_r (a b : Q) : (b <= Math.max a b)%Q.
Proof. unfold Math.max. case_Qle a b; lra. Qed.

Lemma Math_max_cases (a b : Q) : Math.max a b = a ∨ Math.max a b = b.
Proof. unfold Math.max. destruct (Qle_bool a b); auto. Qed.

Lemma PreviewGenerator_scale_floor (modelSize : Q) :
  (0.5 <= PreviewGenerator.calculateAdaptiveScale modelSize)%Q.
Proof.
  unfold PreviewGenerator.calculateAdaptiveScale.
  destruct (Qle_bool modelSize 0); [lra | apply Math_max_r].
Qed.

Lemma Model3DViewer_scale_floor (modelSize : Q) :
  (0.3 <= Model3DViewer.calculateAdaptiveScale modelSize)%Q.
Proof.
  unfold Model3DViewer.calculateAdaptiveScale.
  destruct (Qle_bool modelSize 0); [lra | apply Math_max_r].
Qed.

(** The largest scaled dimension is at least [floor] times the largest
    dimension, when the scale is at least [floor]. *)
Lemma max_scaled_dimension (size : THREE.Vector3) (scale floor : Q) :
  (0 <= THREE.x size)%Q → (0 <= THREE.y size)%Q → (0 <= THREE.z size)%Q →
  (0 <= floor)%Q → (floor <= scale)%Q →
  let scaledSize := THREE.multiplyScalar size scale in
  (Math.max (Math.max (THREE.x size) (THREE.y size)) (THREE.z size) * floor
   <= Math.max (Math.max (THREE.x scaledSize) (THREE.y scaledSize)) (THREE.z scaledSize))%Q.
Proof.
  intros Hx Hy Hz Hf Hs. cbv zeta. unfold THREE.multiplyScalar. simpl.
  pose proof (Math_max_l (Math.max (THREE.x size * scale) (THREE.y size * scale))
                (THREE.z size * scale)) as H1.
  pose proof (Math_max_r (Math.max (THREE.x size * scale) (THREE.y size * scale))
                (THREE.z size * scale)) as H2.
  pose proof (Math_max_l (THREE.x size * scale) (THREE.y size * scale)) as H3.
  pose proof (Math_max_r (THREE.x size * scale) (THREE.y size * scale)) as H4.
  assert (Hmono : ∀ c : Q, (0 <= c)%Q → (c * floor <= c * scale)%Q).
  { intros c Hc. rewrite !(Qmult_comm c). by apply Qmult_le_compat_r. }
  pose proof (Hmono _ Hx). pose proof (Hmono _ Hy). pose proof (Hmono _ Hz).
  destruct (Math_max_cases (Math.max (THREE.x size) (THREE.y size)) (THREE.z size))
    as [->| ->]; [destruct (Math_max_cases (THREE.x size) (THREE.y size)) as [->| ->]|];
    lra.
Qed.

Lemma Qsquare_mono (a b : Q) : (0 <= a)%Q → (a <= b)%Q → (a * a <= b * b)%Q.
Proof. intros Ha Hab. apply Qmult_le_compat_nonneg; split; lra. Qed.



(** A large model is framed past the far plane.  Both cameras clip at 1000
    units and look at the origin, the centre of the model, and neither the
    scale nor the distance is bounded for large models: for a bounding box of
    1011 units or more the generator, and for one of 2880 units or more the
    viewer, puts the camera farther than 1000 units from the centre of the
    model, which then lies beyond the far plane. *)
Theorem large_model_past_far_plane (aspect : Q) (size : THREE.Vector3) :
  (0 <= THREE.x size)%Q → (0 <= THREE.y size)%Q → (0 <= THREE.z size)%Q →
  let maxSize := Math.max (Math.max (THREE.x size) (THREE.y size)) (THREE.z size) in
  ((1011 <= maxSize)%Q →
     let camera :=
       (PreviewGenerator.frameModel (PreviewGenerator.newCamera aspect) size None).2 in
     (THREE.far camera * THREE.far camera < THREE.lengthSq (THREE.position camera))%Q)
  ∧ ((2880 <= maxSize)%Q →
     ∃ camera,
       (Model3DViewer.frameModel (Some (Model3DViewer.newCamera aspect)) size).2
       = Some camera
       ∧ (THREE.far camera * THREE.far camera
          < THREE.lengthSq (THREE.position camera))%Q).
Proof.
  intros Hx Hy Hz. cbv zeta. split.
  - intros Hbig.
    unfold PreviewGenerator.frameModel, PreviewGenerator.positionCameraForBestView.
    cbn [snd THREE.position THREE.position_set THREE.far PreviewGenerator.newCamera].
    unfold THREE.lengthSq. cbn [THREE.x THREE.y THREE.z].
    pose proof (max_scaled_dimension size
                  (PreviewGenerator.calculateAdaptiveScale
                     (Math.max (Math.max (THREE.x size) (THREE.y size)) (THREE.z size)))
                  0.5 Hx Hy Hz ltac:(lra) (PreviewGenerator_scale_floor _)) as Hscaled.
    cbv zeta in Hscaled.
    set (m := Math.max (Math.max (THREE.x (THREE.multiplyScalar size _)) _) _) in *.
    pose proof (Math_max_l (m * 1.5) 4) as Hd.
    set (d := Math.max (m * 1.5) 4) in *.
    assert (Hd' : (758.25 <= d)%Q) by lra.
    pose proof (Qsquare_mono 758.25 d ltac:(lra) Hd') as Hsq.
    assert (Heq : (d * 0.7 * (d * 0.7) + d * 0.5 * (d * 0.5) + d * 1.0 * (d * 1.0)
                   == 1.74 * (d * d))%Q) by ring.
    rewrite Heq. 
    assert (Hc : (758.25 * 758.25 == 574943.0625)%Q) by reflexivity.
    rewrite Hc in Hsq. lra.
  - intros Hbig.
    unfold Model3DViewer.frameModel, Model3DViewer.positionCameraForModel.
    cbn [snd]. eexists. split; [reflexivity|].
    cbn [THREE.position THREE.position_set THREE.far Model3DViewer.newCamera].
    unfold THREE.lengthSq. cbn [THREE.x THREE.y THREE.z].
    pose proof (max_scaled_dimension size
                  (Model3DViewer.calculateAdaptiveScale
                     (Math.max (Math.max (THREE.x size) (THREE.y size)) (THREE.z size)))
                  0.3 Hx Hy Hz ltac:(lra) (Model3DViewer_scale_floor _)) as Hscaled.
    cbv zeta in Hscaled.
    set (m := Math.max (Math.max (THREE.x (THREE.multiplyScalar size _)) _) _) in *.
    pose proof (Math_max_l (m * 1) 8) as Hd.
    set (d := Math.max (m * 1) 8) in *.
    assert (Hd' : (864 <= d)%Q) by lra.
    pose proof (Qsquare_mono 864 d ltac:(lra) Hd') as Hsq.
    assert (Heq : (d * 0.5 * (d * 0.5) + d * 0.3 * (d * 0.3) + d * d
                   == 1.34 * (d * d))%Q) by ring.
    rewrite Heq.
    assert (Hc : (864 * 864 == 746496)%Q) by reflexivity.
    rewrite Hc in Hsq. lra.
Qed.

Lemma large_model_past_far_plane_witness :
  let size := THREE.mkVector3 1200 800 3000 in
  let camera :=
    (PreviewGenerator.frameModel (PreviewGenerator.newCamera 1.5) size None).2 in
  (THREE.far camera * THREE.far camera < THREE.lengthSq (THREE.position camera))%Q.
Proof.
  cbv zeta.
  apply (large_model_past_far_plane 1.5 (THREE.mkVector3 1200 800 3000)); done.
Defined.

(** ** The framing does not depend on the size *)

Lemma Qmult_le_lower (lo floor m scale : Q) :
  (0 <= lo)%Q → (0 <= floor)%Q → (lo <= m)%Q → (floor <= scale)%Q →
  (lo * floor <= m * scale)%Q.
Proof. intros. apply Qmult_le_compat_nonneg; split; lra. Qed.

(** A lower bound of the scale over the sizes below [hi]. *)
Ltac scale_floor_below :=
  intros; scale_unfold; scale_tests; scale_arith; lra.

Lemma PreviewGenerator_scale_below (m : Q) :
  (0 < m)%Q →
  ((m < 0.1 → 50 <= PreviewGenerator.calculateAdaptiveScale m)
   ∧ (m < 0.2 → 43 <= PreviewGenerator.calculateAdaptiveScale m)
   ∧ (m < 1 → 15 <= PreviewGenerator.calculateAdaptiveScale m)
   ∧ (m < 10 → 3 <= PreviewGenerator.calculateAdaptiveScale m)
   ∧ (m < 100 → 1 <= PreviewGenerator.calculateAdaptiveScale m))%Q.
Proof. intros Hm. repeat split; scale_floor_below. Qed.

Lemma Model3DViewer_scale_below (m : Q) :
  (0 < m)%Q →
  ((m < 0.5 → 20 <= Model3DViewer.calculateAdaptiveScale m)
   ∧ (m < 0.6 → 18 <= Model3DViewer.calculateAdaptiveScale m)
   ∧ (m < 0.8 → 14 <= Model3DViewer.calculateAdaptiveScale m)
   ∧ (m < 1 → 10 <= Model3DViewer.calculateAdaptiveScale m)
   ∧ (m < 2 → 9 <= Model3DViewer.calculateAdaptiveScale m)
   ∧ (m < 4 → 7 <= Model3DViewer.calculateAdaptiveScale m)
   ∧ (m < 10 → 2 <= Model3DViewer.calculateAdaptiveScale m)
   ∧ (m < 100 → 0.8 <= Model3DViewer.calculateAdaptiveScale m))%Q.
Proof. intros Hm. repeat split; scale_floor_below. Qed.

(** The largest dimension of the scaled model, from the size of the model. *)
Lemma PreviewGenerator_scaled_size (m : Q) :
  (0.06 <= m)%Q → (8 # 3 <= m * PreviewGenerator.calculateAdaptiveScale m)%Q.
Proof.
  intros Hm.
  destruct (PreviewGenerator_scale_below m ltac:(lra)) as (H1 & H2 & H3 & H4 & H5).
  pose proof (PreviewGenerator_scale_floor m) as H6.
  destruct (Qlt_le_dec m 0.1);
    [pose proof (Qmult_le_lower 0.06 50 m _ ltac:(lra) ltac:(lra) Hm (H1 ltac:(lra))); lra|].
  destruct (Qlt_le_dec m 0.2);
    [pose proof (Qmult_le_lower 0.1 43 m _ ltac:(lra) ltac:(lra) ltac:(lra) (H2 ltac:(lra))); lra|].
  destruct (Qlt_le_dec m 1);
    [pose proof (Qmult_le_lower 0.2 15 m _ ltac:(lra) ltac:(lra) ltac:(lra) (H3 ltac:(lra))); lra|].
  destruct (Qlt_le_dec m 10);
    [pose proof (Qmult_le_lower 1 3 m _ ltac:(lra) ltac:(lra) ltac:(lra) (H4 ltac:(lra))); lra|].
  destruct (Qlt_le_dec m 100);
    [pose proof (Qmult_le_lower 10 1 m _ ltac:(lra) ltac:(lra) ltac:(lra) (H5 ltac:(lra))); lra|].
  pose proof (Qmult_le_lower 100 0.5 m _ ltac:(lra) ltac:(lra) ltac:(lra) H6). lra.
Qed.

Lemma Model3DViewer_scaled_size (m : Q) :
  (0.4 <= m)%Q → (8 <= m * Model3DViewer.calculateAdaptiveScale m)%Q.
Proof.
  intros Hm.
  destruct (Model3DViewer_scale_below m ltac:(lra))
    as (H1 & H2 & H3 & H4 & H5 & H6 & H7 & H8).
  pose proof (Model3DViewer_scale_floor m) as H9.
  destruct (Qlt_le_dec m 0.5);
    [pose proof (Qmult_le_lower 0.4 20 m _ ltac:(lra) ltac:(lra) Hm (H1 ltac:(lra))); lra|].
  destruct (Qlt_le_dec m 0.6);
    [pose proof (Qmult_le_lower 0.5 18 m _ ltac:(lra) ltac:(lra) ltac:(lra) (H2 ltac:(lra))); lra|].
  destruct (Qlt_le_dec m 0.8);
    [pose proof (Qmult_le_lower 0.6 14 m _ ltac:(lra) ltac:(lra) ltac:(lra) (H3 ltac:(lra))); lra|].
  destruct (Qlt_le_dec m 1);
    [pose proof (Qmult_le_lower 0.8 10 m _ ltac:(lra) ltac:(lra) ltac:(lra) (H4 ltac:(lra))); lra|].
  destruct (Qlt_le_dec m 2);
    [pose proof (Qmult_le_lower 1 9 m _ ltac:(lra) ltac:(lra) ltac:(lra) (H5 ltac:(lra))); lra|].
  destruct (Qlt_le_dec m 4);
    [pose proof (Qmult_le_lower 2 7 m _ ltac:(lra) ltac:(lra) ltac:(lra) (H6 ltac:(lra))); lra|].
  destruct (Qlt_le_dec m 10);
    [pose proof (Qmult_le_lower 4 2 m _ ltac:(lra) ltac:(lra) ltac:(lra) (H7 ltac:(lra))); lra|].
  destruct (Qlt_le_dec m 100);
    [pose proof (Qmult_le_lower 10 0.8 m _ ltac:(lra) ltac:(lra) ltac:(lra) (H8 ltac:(lra))); lra|].
  pose proof (Qmult_le_lower 100 0.3 m _ ltac:(lra) ltac:(lra) ltac:(lra) H9). lra.
Qed.

Lemma Math_max_big (a b : Q) : (b <= a)%Q → (Math.max a b == a)%Q.
Proof. intros H. unfold Math.max. case_Qle a b; lra. Qed.

(** The framing does not depend on the size of the model.  For a model of
    at least 0.06 units the generator puts the camera at exactly one and a
    half times the largest dimension of the scaled model, and for a model of
    at least 0.4 units the viewer puts it at exactly that dimension: the
    minimal distances of 4 and 8 units never apply there, and the ratio of
    the distance to the largest scaled dimension is the same whatever scale
    the adaptive scale gave the model. *)
Theorem framing_is_proportional (aspect : Q) (size : THREE.Vector3) :
  (0 <= THREE.x size)%Q → (0 <= THREE.y size)%Q → (0 <= THREE.z size)%Q →
  let maxSize := Math.max (Math.max (THREE.x size) (THREE.y size)) (THREE.z size) in
  let largest (scaled : THREE.Vector3) :=
    Math.max (Math.max (THREE.x scaled) (THREE.y scaled)) (THREE.z scaled) in
  ((0.06 <= maxSize)%Q →
     let framed := PreviewGenerator.frameModel (PreviewGenerator.newCamera aspect) size None in
     (THREE.z (THREE.position framed.2)
      == largest (THREE.multiplyScalar size framed.1) * 1.5)%Q)
  ∧ ((0.4 <= maxSize)%Q →
     let framed := Model3DViewer.frameModel (Some (Model3DViewer.newCamera aspect)) size in
     ∃ camera,
       framed.2 = Some camera
       ∧ (THREE.z (THREE.position camera)
          == largest (THREE.multiplyScalar size framed.1))%Q).
Proof.
  intros Hx Hy Hz. cbv zeta. split.
  - intros Hbig.
    unfold PreviewGenerator.frameModel, PreviewGenerator.positionCameraForBestView.
    cbv zeta. cbn [fst snd THREE.position THREE.position_set THREE.z].
    set (m := Math.max (Math.max (THREE.x size) (THREE.y size)) (THREE.z size)) in *.
    pose proof (PreviewGenerator_scale_floor m) as Hfloor.
    pose proof (max_scaled_dimension size (PreviewGenerator.calculateAdaptiveScale m)
                  (PreviewGenerator.calculateAdaptiveScale m)
                  Hx Hy Hz ltac:(lra) ltac:(lra)) as Hscaled.
    cbv zeta in Hscaled. fold m in Hscaled.
    pose proof (PreviewGenerator_scaled_size m Hbig) as Hsize.
    set (largest := Math.max (Math.max (THREE.x (THREE.multiplyScalar size _)) _) _) in *.
    pose proof (Math_max_big (largest * 1.5) 4 ltac:(lra)). lra.
  - intros Hbig.
    unfold Model3DViewer.frameModel, Model3DViewer.positionCameraForModel.
    cbv zeta. cbn [fst snd]. eexists. split; [reflexivity|].
    cbn [THREE.position THREE.position_set THREE.z].
    set (m := Math.max (Math.max (THREE.x size) (THREE.y size)) (THREE.z size)) in *.
    pose proof (Model3DViewer_scale_floor m) as Hfloor.
    pose proof (max_scaled_dimension size (Model3DViewer.calculateAdaptiveScale m)
                  (Model3DViewer.calculateAdaptiveScale m)
                  Hx Hy Hz ltac:(lra) ltac:(lra)) as Hscaled.
    cbv zeta in Hscaled. fold m in Hscaled.
    pose proof (Model3DViewer_scaled_size m Hbig) as Hsize.
    set (largest := Math.max (Math.max (THREE.x (THREE.multiplyScalar size _)) _) _) in *.
    pose proof (Math_max_big (largest * 1) 8 ltac:(lra)). lra.
Qed.

Lemma framing_is_proportional_witness :
  let size := THREE.mkVector3 20 20 20 in
  let framed := PreviewGenerator.frameModel (PreviewGenerator.newCamera 1.5) size None in
  (THREE.z (THREE.position framed.2)
   == Math.max (Math.max (THREE.x (THREE.multiplyScalar size framed.1))
                  (THREE.y (THREE.multiplyScalar size framed.1)))
        (THREE.z (THREE.multiplyScalar size framed.1)) * 1.5)%Q.
Proof.
  cbv zeta.
  apply (framing_is_proportional 1.5 (THREE.mkVector3 20 20 20)); done.
Defined.
